(** * Mega-Sena bet generator: a shallow embedding of
      [gerador_mega_sena_virada.py] and the properties of its
      constrained combination generator.

    The Python program is translated function by function.  Integers are
    [Z], Python floats are the binary64 primitive floats of the standard
    library, a [set] of integers is a [gset Z], a [dict] is a [gmap], the
    draw history (a pandas [DataFrame]) is the list of its rows, and a
    pandas [Series] is the list of its (label, value) pairs in index order.
    The module-global random generator is threaded explicitly through a
    small state-and-exception monad. *)

From Stdlib Require Import ZArith Floats Lia.
From stdpp Require Import gmap strings list sorting.

Local Open Scope Z_scope.

(** ** Constants *)

Definition NUM_MIN : Z := 1.
Definition NUM_MAX : Z := 60.

(** [range(NUM_MIN, NUM_MAX + 1)] *)
Definition faixa : list Z := seqZ NUM_MIN (NUM_MAX + 1 - NUM_MIN).

(** ** Exceptions, the random source and the monad of effects *)

Inductive exn : Type :=
| ValueError
| ZeroDivisionError
| OverflowError
| IndexError.

(** The state of the global generator of module [random]: the infinite
    stream of raw words it is still going to produce.  Seeding the
    generator fixes this stream. *)
Definition rng : Type := nat -> nat.

(** What running a piece of code gives: a value, a raised exception, or
    [OutOfFuel] when the bounded unrolling of a [while] loop was not
    enough to reach its exit (the loop is still running). *)
Inductive outcome (A : Type) : Type :=
| Ok (a : A) (g : rng)
| Err (e : exn) (g : rng)
| OutOfFuel.

Arguments Ok {A} a g.
Arguments Err {A} e g.
Arguments OutOfFuel {A}.

Definition M (A : Type) : Type := rng -> outcome A.

Definition ret {A} (a : A) : M A := fun g => Ok a g.

Definition raise {A} (e : exn) : M A := fun g => Err e g.

Definition bind {A B} (m : M A) (k : A -> M B) : M B :=
  fun g =>
    match m g with
    | Ok a g' => k a g'
    | Err e g' => Err e g'
    | OutOfFuel => OutOfFuel
    end.

Definition lift {A} (r : exn + A) : M A :=
  match r with
  | inl e => raise e
  | inr a => ret a
  end.

Notation "x <- m ;; k" := (bind m (fun x => k))
  (at level 100, m at next level, right associativity).

(** ** Python floats *)

(** The literals [0.8], [1.2] and [0.5] of the source, as the binary64
    values the Python parser reads them to. *)
Definition f0_8 : float := 0x1.999999999999ap-1%float.
Definition f1_2 : float := 0x1.3333333333333p+0%float.
Definition f0_5 : float := 0x1p-1%float.

(** Conversion of an [int] to a [float] (round to nearest even), as done
    by [int * float].  An [int] too large for a float gives infinity
    here, where Python raises [OverflowError] at once; in the one place the
    source converts ([qtd_numeros * 0.8]) the product goes straight into
    [math.ceil], which raises the same exception on infinity. *)
Definition float_of_int (z : Z) : float :=
  SF2Prim (binary_normalize prec emax z 0 false).

(** True division [a / b] of two [int]s: [ZeroDivisionError] on a zero
    divisor, else the correctly rounded quotient (for operands below
    [2^53], which convert exactly, that is the binary64 quotient). *)
Definition true_div (a b : Z) : exn + float :=
  if b =? 0 then inl ZeroDivisionError
  else inr (float_of_int a / float_of_int b)%float.

Module math.

(** [math.ceil]: the least integer not below a float. *)
Definition ceil (x : float) : exn + Z :=
  match Prim2SF x with
  | S754_nan => inl ValueError
  | S754_infinity _ => inl OverflowError
  | S754_zero _ => inr 0
  | S754_finite s m e =>
      let n := if s then Z.neg m else Z.pos m in
      inr (if 0 <=? e then n * 2 ^ e else - ((- n) / 2 ^ (- e)))
  end.

End math.

(** ** Module [random] *)

Module random.

(** [_randbelow(n)]: the next raw word, reduced into [range(n)]. *)
Definition randbelow (n : nat) : M nat :=
  fun g => Ok (g 0%nat mod n)%nat (fun i => g (S i)).

(** The selection loop of [sample]: [j = randbelow(n - i)],
    [result[i] = pool[j]], [pool[j] = pool[n - i - 1]].  The live part
    of the pool (its first [n - i] cells) is the list carried here.
    CPython has a second selection loop for a small sample of a large
    population, which also returns the cells at [k] distinct positions;
    the model follows the pool loop throughout. *)
Fixpoint sample_loop (k : nat) (pool : list Z) : M (list Z) :=
  match k with
  | O => ret []
  | S k' =>
      j <- randbelow (length pool) ;;
      rest <- sample_loop k' (removelast (<[j := List.last pool 0]> pool)) ;;
      ret (nth j pool 0 :: rest)
  end.

(** [random.sample(population, k)] *)
Definition sample (population : list Z) (k : Z) : M (list Z) :=
  if (k <? 0) || (Z.of_nat (length population) <? k) then raise ValueError
  else sample_loop (Z.to_nat k) population.

(** [random.choice(seq)] *)
Definition choice (seq : list Z) : M Z :=
  match seq with
  | [] => raise IndexError
  | _ => j <- randbelow (length seq) ;; ret (nth j seq 0)
  end.

(** [x[i], x[j] = x[j], x[i]] *)
Definition swap (x : list Z) (i j : nat) : list Z :=
  <[j := nth i x 0]> (<[i := nth j x 0]> x).

(** [for i in reversed(range(1, len(x))): j = randbelow(i + 1); swap] *)
Fixpoint shuffle_loop (i : nat) (x : list Z) : M (list Z) :=
  match i with
  | O => ret x
  | S i' => j <- randbelow (S i) ;; shuffle_loop i' (swap x i j)
  end.

(** [random.shuffle(x)] *)
Definition shuffle (x : list Z) : M (list Z) :=
  shuffle_loop (length x - 1) x.

End random.

(** ** The draw history and the tables computed from it *)

(** The column [CONCURSO] holds numpy [int64] values: a contest number
    lies between [int64_min] and [int64_max], and a subtraction of two of
    them wraps around. *)
Definition int64_min : Z := -9223372036854775808.
Definition int64_max : Z := 9223372036854775807.

Definition int64_ok (z : Z) : bool := (int64_min <=? z) && (z <=? int64_max).

Definition wrap_int64 (z : Z) : Z := (z - int64_min) mod 2 ^ 64 + int64_min.

(** One row of the history: the contest number (an [int64]) and the
    columns [BOLA1 .. BOLA6] that [df.iloc[i, BOLA1 : BOLA6 + 1].values]
    reads. *)
Record sorteio : Type := {
  CONCURSO : Z;
  BOLAS : list Z;
  CONCURSO_int64 : Is_true (int64_ok CONCURSO)
}.

Definition DataFrame : Type := list sorteio.

Definition Series (A : Type) : Type := list (Z * A).

(** [s[n]] *)
Definition Series_get {A} (s : Series A) (n : Z) : option A :=
  (list_to_map s : gmap Z A) !! n.

(** [sorted(...)] and [list.sort()] on integers. *)
Definition sorted (l : list Z) : list Z := merge_sort Z.le l.

(** [list(s)] for a set of integers.  CPython lists a set in the order of
    its hash table; the model fixes the ascending order. *)
Definition set_to_list (s : gset Z) : list Z := sorted (elements s).

(** [x % 2 != 0] *)
Definition impar (x : Z) : bool := negb (x mod 2 =? 0).

(** [sum(1 for x in l if x % 2 != 0)] *)
Definition conta_impares (l : list Z) : Z := Z.of_nat (length (filter (fun x => impar x = true) l)).

Definition calcular_frequencia_numeros (df : DataFrame) : Series Z :=
  let numeros := concat (map BOLAS df) in
  map (fun n => (n, Z.of_nat (length (filter (fun x => x = n) numeros)))) faixa.

(** [df['CONCURSO'].max()]; [None] is the NaN pandas gives on an empty
    column. *)
Definition Series_max (l : list Z) : option Z :=
  match l with
  | [] => None
  | x :: l' => Some (foldr Z.max x l')
  end.

(** The dictionary [ultimo_concurso_num] after the loop over the rows. *)
Definition ultimo_concurso_num (df : DataFrame) : gmap Z Z :=
  foldl (fun m r => foldl (fun m num => <[num := CONCURSO r]> m) m (BOLAS r))
        (list_to_map (map (fun n => (n, -1)) faixa)) df.

(** The staleness table; a value [None] is NaN.  The subtraction is the
    one of numpy on two [int64] values. *)
Definition calcular_atraso_numeros (df : DataFrame) : Series (option Z) :=
  let ultimo_concurso := Series_max (map CONCURSO df) in
  let ucn := ultimo_concurso_num df in
  map (fun n =>
         (n, if (ucn !!! n) =? -1 then ultimo_concurso
             else (fun u => wrap_int64 (u - ucn !!! n)) <$> ultimo_concurso))
      faixa.

Definition proporcao_impares_pares (df : DataFrame) : float :=
  let total_numeros := Z.of_nat (length (concat (map BOLAS df))) in
  let total_impares := foldl (fun t r => t + conta_impares (BOLAS r)) 0 df in
  if total_numeros =? 0 then 0%float
  else (float_of_int total_impares / float_of_int total_numeros)%float.

(** ** The validity checks *)

Definition ja_saiu_no_historico (combinacao : list Z) (df : DataFrame) : bool :=
  let c_set : gset Z := list_to_set combinacao in
  existsb (fun r => bool_decide (c_set = list_to_set (BOLAS r))) df.

(** The loop of [tem_mais_de_3_consecutivos] from index [i] on: [prev] is
    [c_ord[i - 1]] and [l] is [c_ord[i:]]. *)
Fixpoint consecutivos_loop (prev : Z) (consecutivos : Z) (l : list Z) : bool :=
  match l with
  | [] => false
  | x :: l' =>
      if x =? prev + 1 then
        if 3 <? consecutivos + 1 then true
        else consecutivos_loop x (consecutivos + 1) l'
      else consecutivos_loop x 1 l'
  end.

Definition tem_mais_de_3_consecutivos (combinacao : list Z) : bool :=
  match sorted combinacao with
  | [] => false
  | x :: l => consecutivos_loop x 1 l
  end.

(** ** Proportional selection *)

(** The quotas [(n_freq, n_atra)] computed at the head of
    [gerar_combinacao_proporcional]. *)
Definition n_freq_n_atra (qtd_numeros : Z) (foco : string) : exn + (Z * Z) :=
  if String.eqb foco "frequentes" then
    match math.ceil (float_of_int qtd_numeros * f0_8)%float with
    | inl e => inl e
    | inr n_freq => inr (n_freq, qtd_numeros - n_freq)
    end
  else if String.eqb foco "atrasados" then
    match math.ceil (float_of_int qtd_numeros * f0_8)%float with
    | inl e => inl e
    | inr n_atra => inr (qtd_numeros - n_atra, n_atra)
    end
  else
    match math.ceil (float_of_int qtd_numeros * f0_5)%float with
    | inl e => inl e
    | inr n_freq => inr (n_freq, qtd_numeros - n_freq)
    end.

(** [top[:] if len(top) < n else random.sample(top, n)] *)
Definition escolhidos (top : list Z) (n : Z) : M (list Z) :=
  if Z.of_nat (length top) <? n then ret top else random.sample top n.

(** [set(range(NUM_MIN, NUM_MAX + 1))] *)
Definition universo : gset Z := list_to_set faixa.

(** The filling loop [while len(comb_set) < qtd_numeros: ...], unrolled at
    most [fuel] times. *)
Fixpoint preencher (fuel : nat) (qtd_numeros : Z) (comb_set : gset Z) : M (gset Z) :=
  match fuel with
  | O => fun _ => OutOfFuel
  | S fuel' =>
      if Z.of_nat (size comb_set) <? qtd_numeros then
        match set_to_list (universo ∖ comb_set) with
        | [] => ret comb_set
        | resto => x <- random.choice resto ;;
                   preencher fuel' qtd_numeros ({[x]} ∪ comb_set)
        end
      else ret comb_set
  end.

(** The filling loop is unrolled once more than there are numbers in the
    range; [fuel_preencher_enough] and [preencher_Ok] show that this always
    reaches its exit. *)
Definition fuel_preencher : nat := S (Z.to_nat NUM_MAX).

Definition gerar_combinacao_proporcional
    (qtd_numeros : Z) (foco : string) (top_freq top_atra : list Z) : M (list Z) :=
  n <- lift (n_freq_n_atra qtd_numeros foco) ;;
  escolhidos_freq <- escolhidos top_freq (fst n) ;;
  escolhidos_atra <- escolhidos top_atra (snd n) ;;
  comb_set <- preencher fuel_preencher qtd_numeros
                (list_to_set (escolhidos_freq ++ escolhidos_atra)) ;;
  comb_list <- (if qtd_numeros <? Z.of_nat (size comb_set)
                then random.sample (set_to_list comb_set) qtd_numeros
                else ret (set_to_list comb_set)) ;;
  random.shuffle comb_list.

(** ** The generator *)

(** [s.sort_values(ascending=False).index.tolist()[:30]]: the labels of
    the 30 largest values.  [geb a b] says that value [a] may come before
    value [b]; pandas leaves the order among equal values to its sorting
    routine, the model uses merge sort. *)
Definition top30 {A} (geb : A -> A -> bool) (s : Series A) : list Z :=
  take 30 (map fst (merge_sort (fun a b : Z * A => Is_true (geb (snd a) (snd b))) s)).

(** Descending order on values that may be NaN: NaN comes last. *)
Definition geb_nan (a b : option Z) : bool :=
  match a, b with
  | Some x, Some y => y <=? x
  | Some _, None => true
  | None, Some _ => false
  | None, None => true
  end.

(** The window test
    [prop_impares * 0.8 <= prop_aposta_impares <= prop_impares * 1.2]. *)
Definition na_janela (prop_impares prop_aposta_impares : float) : bool :=
  ((prop_impares * f0_8 <=? prop_aposta_impares)
   && (prop_aposta_impares <=? prop_impares * f1_2))%float.

(** One turn of the [while True] loop of [gerar_aposta]: [Some c] when the
    turn ends in [return c], [None] when it ends in [continue]. *)
Definition tentativa (df : DataFrame) (qtd_numeros : Z) (prop_impares : float)
    (foco : string) (top_freq top_atra : list Z) : M (option (list Z)) :=
  c <- gerar_combinacao_proporcional qtd_numeros foco top_freq top_atra ;;
  let combinacao := sorted c in
  let impares := conta_impares combinacao in
  prop_aposta_impares <- lift (true_div impares qtd_numeros) ;;
  if negb (na_janela prop_impares prop_aposta_impares) then ret None
  else if ja_saiu_no_historico combinacao df then ret None
  else if tem_mais_de_3_consecutivos combinacao then ret None
  else ret (Some combinacao).

(** The [while True] loop, unrolled at most [fuel] times. *)
Fixpoint gerar_aposta_loop (fuel : nat) (df : DataFrame) (qtd_numeros : Z)
    (prop_impares : float) (foco : string) (top_freq top_atra : list Z)
    : M (list Z) :=
  match fuel with
  | O => fun _ => OutOfFuel
  | S fuel' =>
      r <- tentativa df qtd_numeros prop_impares foco top_freq top_atra ;;
      match r with
      | Some combinacao => ret combinacao
      | None => gerar_aposta_loop fuel' df qtd_numeros prop_impares foco
                  top_freq top_atra
      end
  end.

Definition gerar_aposta (fuel : nat) (df : DataFrame) (freq : Series Z)
    (atraso : Series (option Z)) (qtd_numeros : Z) (prop_impares : float)
    (foco : string) : M (list Z) :=
  let top_freq := top30 Z.geb freq in
  let top_atra := top30 geb_nan atraso in
  gerar_aposta_loop fuel df qtd_numeros prop_impares foco top_freq top_atra.

(** The result of a run without the final state of the generator. *)
Definition resultado {A} (o : outcome A) : option (exn + A) :=
  match o with
  | Ok a _ => Some (inr a)
  | Err e _ => Some (inl e)
  | OutOfFuel => None
  end.

(** ** Sample data *)

Definition historico_exemplo : DataFrame :=
  [ {| CONCURSO := 1; BOLAS := [4; 5; 30; 33; 41; 52]; CONCURSO_int64 := I |};
    {| CONCURSO := 2; BOLAS := [9; 37; 39; 41; 43; 49]; CONCURSO_int64 := I |};
    {| CONCURSO := 3; BOLAS := [10; 11; 29; 30; 36; 47]; CONCURSO_int64 := I |};
    {| CONCURSO := 4; BOLAS := [1; 5; 6; 27; 42; 59]; CONCURSO_int64 := I |} ].

Definition fluxo_exemplo : rng := fun i => (7 * i + 3)%nat.

(** The bet generated from [historico_exemplo] and [fluxo_exemplo] for six
    numbers and the balanced focus. *)
Definition aposta_exemplo : list Z := [15; 19; 27; 36; 38; 59].

(** ** Vocabulary of the statements, and further sample data *)

(** The three checks of [gerar_aposta] on a sorted combination. *)
Definition aprovada (df : DataFrame) (qtd_numeros : Z) (prop_impares : float)
    (combinacao : list Z) : Prop :=
  (exists f, true_div (conta_impares combinacao) qtd_numeros = inr f /\
             na_janela prop_impares f = true) /\
  ja_saiu_no_historico combinacao df = false /\
  tem_mais_de_3_consecutivos combinacao = false.

(** The labels of a table are numbers of the range. *)
Definition rotulos_na_faixa {A} (s : Series A) : Prop :=
  Forall (fun kv => NUM_MIN <= fst kv <= NUM_MAX) s.

(** A list holds four neighbouring cells [y, y+1, y+2, y+3]. *)
Definition sequencia_de_4 (l : list Z) : Prop :=
  exists l1 l2 y, l = l1 ++ [y; y + 1; y + 2; y + 3] ++ l2.

(** A list holds the four integers [y, y+1, y+2, y+3] somewhere. *)
Definition contem_4_seguidos (l : list Z) : Prop :=
  exists y, y ∈ l /\ y + 1 ∈ l /\ y + 2 ∈ l /\ y + 3 ∈ l.

(** [set(a) == set(b)] *)
Definition mesmo_conjunto (a b : list Z) : Prop :=
  (list_to_set a : gset Z) = list_to_set b.

(** The ceiling of the exact fraction [a / b], for [0 < b]. *)
Definition teto (a b : Z) : Z := - ((- a) / b).

(** The contest number of the most recent row of the history that holds
    [n]; [None] when no row does. *)
Fixpoint ultima_aparicao (n : Z) (df : DataFrame) : option Z :=
  match df with
  | [] => None
  | r :: df' =>
      match ultima_aparicao n df' with
      | Some c => Some c
      | None => if bool_decide (n ∈ BOLAS r) then Some (CONCURSO r) else None
      end
  end.

(** The binary64 fraction [k / n] is above the upper end of the window
    of a zero odd ratio. *)
Definition fracao_positiva (k n : Z) : bool :=
  negb (float_of_int k / float_of_int n <=? 0 * f1_2)%float.

(** The fraction of odd numbers of a combination, in binary64. *)
Definition fracao_impares (comb : list Z) : float :=
  (float_of_int (conta_impares comb) / float_of_int (Z.of_nat (length comb)))%float.

(** A history of one draw of even numbers (historical odd ratio zero), a
    random stream, and the six even numbers generated from them with the
    focus on frequent numbers. *)
Definition historico_um_sorteio : DataFrame :=
  [ {| CONCURSO := 1; BOLAS := [2; 4; 6; 8; 10; 12]; CONCURSO_int64 := I |} ].

Definition fluxo_quadrados : rng := fun i => (i * i + 1)%nat.

Definition aposta_pares : list Z := [2; 6; 36; 38; 44; 56].

(** History of two draws with a single odd number among the twelve drawn:
    the historical odd ratio is 1/12. *)
Definition historico_pares : DataFrame :=
  [ {| CONCURSO := 1; BOLAS := [2; 4; 6; 8; 10; 12]; CONCURSO_int64 := I |};
    {| CONCURSO := 2; BOLAS := [1; 14; 16; 18; 20; 22]; CONCURSO_int64 := I |} ].

(** The state of the generator after [n] turns of a loop that all ended in
    [continue], from the state [g]; [None] when one of these turns
    returns or raises.  [t] is one turn of the loop. *)
Fixpoint rejeitadas (t : M (option (list Z))) (n : nat) (g : rng) : option rng :=
  match n with
  | O => Some g
  | S n' =>
      match t g with
      | Ok None g' => rejeitadas t n' g'
      | _ => None
      end
  end.

(** Both quotas are computed, and neither is negative. *)
Definition cotas_validas (r : exn + (Z * Z)) : bool :=
  match r with
  | inr (n_freq, n_atra) => (0 <=? n_freq) && (0 <=? n_atra)
  | inl _ => false
  end.


(** ** The rest of the program: dated histories and [main] *)

(** A calendar date, as [DATA_DO_SORTEIO] holds it after loading. *)
Record data : Type := { ano : Z; mes : Z; dia : Z }.

(** One row of the loaded table: the date of the draw beside the columns
    the statistics read. *)
Record linha : Type := { DATA_DO_SORTEIO : data; SORTEIO : sorteio }.

(** The test of [filtrar_mega_da_virada] on one row. *)
Definition da_virada (l : linha) : bool :=
  (mes (DATA_DO_SORTEIO l) =? 12) && (dia (DATA_DO_SORTEIO l) =? 31)
  && (2008 <=? ano (DATA_DO_SORTEIO l)).

Definition filtrar_mega_da_virada (df : list linha) : list linha :=
  List.filter da_virada df.

(** The prompt loop of [main] for the count: each turn reads one line;
    [int] is Python's conversion, [None] where it raises (the bare
    [except] then asks again).  The loop ends on the first line that
    converts to a number of 6..15; [None] is the [EOFError] of [input] at
    the end of the input. *)
Fixpoint pedir_qtd_numeros (int : string -> option Z) (entradas : list string)
    : option (Z * list string) :=
  match entradas with
  | [] => None
  | e :: resto =>
      match int e with
      | Some qtd_numeros =>
          if (6 <=? qtd_numeros) && (qtd_numeros <=? 15)
          then Some (qtd_numeros, resto)
          else pedir_qtd_numeros int resto
      | None => pedir_qtd_numeros int resto
      end
  end.

(** The focus [main] derives from the answer to its last question. *)
Definition foco_aposta (foco_opcao : string) : string :=
  if String.eqb foco_opcao "1" then "frequentes"
  else if String.eqb foco_opcao "2" then "atrasados"
  else "equilibrado".

(** What [main] does with the loaded table [df_completo] and the lines
    typed by the user, up to the generated bet: the choice of the
    history, the count, the statistics, the question about the charts
    (whose answer changes nothing here), the focus and the call of
    [gerar_aposta].  [None] stands for the two ends without a bet: no
    Mega da Virada draw in the table, or the input running out. *)
Definition main (int : string -> option Z) (fuel : nat) (df_completo : list linha)
    (entradas : list string) : M (option (list Z)) :=
  match entradas with
  | [] => ret None
  | opcao :: entradas1 =>
      let df_filtrado :=
        if String.eqb opcao "1" then filtrar_mega_da_virada df_completo
        else df_completo in
      if String.eqb opcao "1" && bool_decide (df_filtrado = []) then ret None
      else
        match pedir_qtd_numeros int entradas1 with
        | None => ret None
        | Some (qtd_numeros, entradas2) =>
            let df := map SORTEIO df_filtrado in
            let freq_numeros := calcular_frequencia_numeros df in
            let atraso_numeros := calcular_atraso_numeros df in
            let prop_impares_hist := proporcao_impares_pares df in
            match entradas2 with
            | plotar :: foco_opcao :: _ =>
                aposta_gerada <- gerar_aposta fuel df freq_numeros atraso_numeros
                                   qtd_numeros prop_impares_hist
                                   (foco_aposta foco_opcao) ;;
                ret (Some aposta_gerada)
            | _ => ret None
            end
        end
  end.

(** ** Further vocabulary *)

(** [sum(s.values)] *)
Definition soma_serie (s : Series Z) : Z := foldr Z.add 0 (map snd s).

(** All the drawn numbers of a history, row after row. *)
Definition numeros_sorteados (df : DataFrame) : list Z := concat (map BOLAS df).

(** How many times [n] was drawn. *)
Definition ocorrencias (n : Z) (df : DataFrame) : Z :=
  Z.of_nat (length (filter (fun x => x = n) (numeros_sorteados df))).

(** A history in ascending order of contest number. *)
Definition concursos_crescentes (df : DataFrame) : Prop :=
  StronglySorted (fun r1 r2 => CONCURSO r1 < CONCURSO r2) df.

(** A pool holds [k] of the numbers of a list. *)
Definition quantos_de (pool l : list Z) : nat :=
  length (filter (fun x => x ∈ pool) l).

(** A small conversion for the examples: the decimal numerals of 0..20. *)
Definition int_exemplo (s : string) : option Z :=
  (fun r => Z.of_nat (fst r)) <$>
    list_find (fun t => t = s)
      ["0"; "1"; "2"; "3"; "4"; "5"; "6"; "7"; "8"; "9"; "10"; "11"; "12";
       "13"; "14"; "15"; "16"; "17"; "18"; "19"; "20"].

Definition tabela_exemplo : list linha :=
  [ {| DATA_DO_SORTEIO := {| ano := 2007; mes := 12; dia := 31 |};
       SORTEIO := {| CONCURSO := 930; BOLAS := [3; 11; 20; 35; 44; 51]; CONCURSO_int64 := I |} |};
    {| DATA_DO_SORTEIO := {| ano := 2009; mes := 12; dia := 31 |};
       SORTEIO := {| CONCURSO := 1140; BOLAS := [10; 27; 40; 46; 49; 58]; CONCURSO_int64 := I |} |};
    {| DATA_DO_SORTEIO := {| ano := 2010; mes := 6; dia := 30 |};
       SORTEIO := {| CONCURSO := 1192; BOLAS := [1; 5; 6; 27; 42; 59]; CONCURSO_int64 := I |} |};
    {| DATA_DO_SORTEIO := {| ano := 2010; mes := 12; dia := 31 |};
       SORTEIO := {| CONCURSO := 1245; BOLAS := [2; 10; 34; 37; 43; 50]; CONCURSO_int64 := I |} |} ].

(** ** The monad: inversion of a successful run *)

Lemma bind_Ok {A B} (m : M A) (k : A -> M B) g b g' :
  bind m k g = Ok b g' ->
  exists a g1, m g = Ok a g1 /\ k a g1 = Ok b g'.
Proof.
  unfold bind. destruct (m g) as [a g1| |]; [eauto | discriminate..].
Qed.

Lemma bind_OutOfFuel {A B} (m : M A) (k : A -> M B) g :
  bind m k g = OutOfFuel ->
  m g = OutOfFuel \/ exists a g1, m g = Ok a g1 /\ k a g1 = OutOfFuel.
Proof.
  unfold bind. destruct (m g) as [a g1| |]; [eauto | discriminate | auto].
Qed.

Lemma bind_eq_Ok {A B} (m : M A) (k : A -> M B) g a g1 :
  m g = Ok a g1 -> bind m k g = k a g1.
Proof. unfold bind. now intros ->. Qed.

Lemma resultado_Ok {A} (o : outcome A) (a : A) :
  resultado o = Some (inr a) -> exists g', o = Ok a g'.
Proof. destruct o as [a' g'| |]; simpl; [|discriminate..]. intros [= ->]. eauto. Qed.

(** ** Python floats: sample values *)

Example ceil_exemplos :
  math.ceil 0x1.199999999999ap+3%float = inr 9 /\   (* ceil(8.8) *)
  math.ceil (float_of_int 5) = inr 5 /\
  math.ceil (- f0_5)%float = inr 0 /\
  math.ceil (- f1_2)%float = inr (-1) /\
  math.ceil nan = inl ValueError /\
  math.ceil infinity = inl OverflowError.
Proof. repeat split. Qed.

Example float_of_int_exemplos :
  float_of_int 0 = 0%float /\ float_of_int 6 = 6%float /\
  float_of_int (-3) = (-3)%float /\ float_of_int (2 ^ 53 + 1) = 0x1p+53%float.
Proof. repeat split. Qed.

(** ** Facts about module [random] *)

Lemma randbelow_Ok n g :
  random.randbelow n g = Ok (g 0%nat mod n)%nat (fun i => g (S i)).
Proof. reflexivity. Qed.

Lemma randbelow_lt n g : (0 < n)%nat -> (g 0%nat mod n < n)%nat.
Proof. intros. apply Nat.mod_upper_bound. lia. Qed.

(** Taking cell [j] out of the pool by overwriting it with the last cell. *)
Lemma pool_step (pool : list Z) (j : nat) :
  (j < length pool)%nat ->
  pool ≡ₚ nth j pool 0 :: removelast (<[j := List.last pool 0]> pool).
Proof.
  intros Hj.
  destruct (exists_last (l := pool)) as (ini & z & ->).
  { intros ->. simpl in Hj. lia. }
  rewrite last_last. rewrite length_app in Hj. simpl in Hj.
  destruct (decide (j = length ini)) as [-> | Hne].
  - rewrite nth_middle.
    replace (<[length ini := z]> (ini ++ [z])) with (ini ++ [z]).
    + rewrite removelast_last. now rewrite Permutation_app_comm.
    + rewrite insert_app_r_alt by lia. now rewrite Nat.sub_diag.
  - assert (Hlt : (j < length ini)%nat) by lia.
    rewrite insert_app_l by assumption. rewrite removelast_last.
    rewrite app_nth1 by assumption.
    destruct (nth_split ini 0 Hlt) as (a & b & Hini & Hlen).
    rewrite Hini at 1 3. rewrite <- Hlen.
    rewrite insert_app_r_alt by lia. rewrite Nat.sub_diag. simpl.
    rewrite <- app_assoc. simpl.
    rewrite <- Permutation_middle. constructor.
    apply Permutation_app_head.
    change (z :: b) with ([z] ++ b). apply Permutation_app_comm.
Qed.

Lemma sample_loop_Ok k : forall pool g,
  exists l g', random.sample_loop k pool g = Ok l g'.
Proof.
  induction k as [|k IH]; intros pool g; simpl.
  - eexists _, _. reflexivity.
  - unfold bind at 1. rewrite randbelow_Ok.
    destruct (IH (removelast (<[(g 0%nat mod length pool)%nat := List.last pool 0]> pool))
                 (fun i => g (S i))) as (l & g' & E).
    unfold bind. rewrite E. eexists _, _. reflexivity.
Qed.

(** The [k] cells drawn by the selection loop and the cells left in the
    pool make up the pool. *)
Lemma sample_loop_perm k : forall pool g l g',
  (k <= length pool)%nat ->
  random.sample_loop k pool g = Ok l g' ->
  length l = k /\ exists r, pool ≡ₚ l ++ r.
Proof.
  induction k as [|k IH]; intros pool g l g' Hk; simpl.
  - intros [= <- <-]. split; [reflexivity | exists pool; reflexivity].
  - intros H. apply bind_Ok in H as (j & g1 & Hj & H).
    rewrite randbelow_Ok in Hj. injection Hj as <- <-.
    apply bind_Ok in H as (rest & g2 & Hrest & H).
    injection H as <- <-.
    assert (Hlt : (g 0%nat mod length pool < length pool)%nat)
      by (apply randbelow_lt; lia).
    pose proof (pool_step pool _ Hlt) as Hstep.
    apply IH in Hrest as (Hlen & r & Hr).
    + split; [simpl; now rewrite Hlen|].
      exists r. simpl. etrans; [exact Hstep|]. now constructor.
    + apply Permutation_length in Hstep. simpl in Hstep. lia.
Qed.

Lemma sample_Ok population k g l g' :
  random.sample population k g = Ok l g' ->
  0 <= k /\ Z.of_nat (length l) = k /\ exists r, population ≡ₚ l ++ r.
Proof.
  unfold random.sample.
  destruct (k <? 0) eqn:E1; [discriminate|].
  destruct (Z.of_nat (length population) <? k) eqn:E2; [discriminate|]. simpl.
  intros H. apply sample_loop_perm in H as (Hlen & r & Hr); [|lia].
  split; [lia|]. split; [lia | eauto].
Qed.

Lemma sample_not_OutOfFuel population k g :
  random.sample population k g <> OutOfFuel.
Proof.
  unfold random.sample.
  destruct ((k <? 0) || (Z.of_nat (length population) <? k)); [discriminate|].
  destruct (sample_loop_Ok (Z.to_nat k) population g) as (l & g' & ->).
  discriminate.
Qed.

Lemma choice_Ok (seq : list Z) g :
  seq <> [] ->
  exists x, random.choice seq g = Ok x (fun i => g (S i)) /\ x ∈ seq.
Proof.
  intros Hne. destruct seq as [|y seq]; [congruence|].
  unfold random.choice, bind. rewrite randbelow_Ok.
  eexists. split; [reflexivity|].
  apply list_elem_of_In, nth_In, randbelow_lt. simpl. lia.
Qed.

Lemma lookup_nth (x : list Z) i :
  (i < length x)%nat -> x !! i = Some (nth i x 0).
Proof. intros Hi. destruct (nth_lookup_or_length x i 0); [assumption | lia]. Qed.

Lemma swap_perm (x : list Z) i j :
  (i < length x)%nat -> (j < length x)%nat -> random.swap x i j ≡ₚ x.
Proof.
  intros Hi Hj. unfold random.swap.
  destruct (decide (i = j)) as [-> | Hne].
  - rewrite list_insert_insert_eq.
    rewrite list_insert_id; [reflexivity|].
    now apply lookup_nth.
  - apply Permutation_inj. split; [now rewrite !length_insert|].
    exists (fun n => if decide (n = i) then j else if decide (n = j) then i else n).
    split.
    + intros a b. repeat case_decide; subst; congruence.
    + intros n. cbn beta.
      destruct (decide (n = i)) as [-> | Hni]; [|destruct (decide (n = j)) as [-> | Hnj]].
      * rewrite list_lookup_insert_ne by congruence.
        rewrite list_lookup_insert_eq by lia.
        symmetry. now apply lookup_nth.
      * rewrite list_lookup_insert_eq by (rewrite length_insert; lia).
        symmetry. now apply lookup_nth.
      * now rewrite !list_lookup_insert_ne by congruence.
Qed.

Lemma shuffle_loop_perm i : forall (x : list Z) g,
  (i < length x)%nat ->
  exists l g', random.shuffle_loop i x g = Ok l g' /\ l ≡ₚ x.
Proof.
  induction i as [|i IH]; intros x g Hi; simpl.
  - eexists _, _. split; reflexivity.
  - unfold bind. rewrite randbelow_Ok.
    assert (Hj : (g 0%nat mod S (S i) < S (S i))%nat) by (apply randbelow_lt; lia).
    assert (Hp : random.swap x (S i) (g 0%nat mod S (S i))%nat ≡ₚ x)
      by (apply swap_perm; lia).
    destruct (IH (random.swap x (S i) (g 0%nat mod S (S i))%nat) (fun n => g (S n)))
      as (l & g' & E & Hl).
    + apply Permutation_length in Hp. lia.
    + exists l, g'. split; [assumption | now rewrite Hl].
Qed.

Lemma shuffle_Ok (x : list Z) g :
  exists l g', random.shuffle x g = Ok l g' /\ l ≡ₚ x.
Proof.
  unfold random.shuffle. destruct x as [|a x].
  - simpl. eexists _, _. split; reflexivity.
  - apply shuffle_loop_perm. simpl. lia.
Qed.

(** ** Sorting and the listing of a set *)

Lemma sorted_perm l : sorted l ≡ₚ l.
Proof. apply merge_sort_Permutation. Qed.

Lemma sorted_Sorted l : Sorted Z.le (sorted l).
Proof. apply (Sorted_merge_sort Z.le). Qed.

Lemma set_to_list_perm (s : gset Z) : set_to_list s ≡ₚ elements s.
Proof. apply sorted_perm. Qed.

Lemma elem_of_set_to_list (s : gset Z) x : x ∈ set_to_list s <-> x ∈ s.
Proof. rewrite set_to_list_perm. apply elem_of_elements. Qed.

Lemma NoDup_set_to_list (s : gset Z) : NoDup (set_to_list s).
Proof. rewrite set_to_list_perm. apply NoDup_elements. Qed.

Lemma length_set_to_list (s : gset Z) : length (set_to_list s) = size s.
Proof. unfold size, set_size. simpl. now rewrite set_to_list_perm. Qed.

Lemma elem_of_universo x : x ∈ universo <-> NUM_MIN <= x <= NUM_MAX.
Proof.
  unfold universo, faixa. rewrite elem_of_list_to_set, elem_of_seqZ.
  unfold NUM_MIN, NUM_MAX. lia.
Qed.

Lemma size_universo : size universo = 60%nat.
Proof. reflexivity. Qed.

(** ** The filling loop *)

(** One more turn of the loop adds a number of the range that was not yet
    chosen: the chosen set grows by one and the candidates left shrink. *)
Lemma preencher_turn (s : gset Z) x :
  x ∈ universo ∖ s ->
  size ({[x]} ∪ s) = S (size s) /\
  (size (universo ∖ ({[x]} ∪ s)) < size (universo ∖ s))%nat.
Proof.
  intros Hx. split.
  - rewrite size_union by set_solver. now rewrite size_singleton.
  - apply subset_size. set_solver.
Qed.

Lemma preencher_Ok fuel : forall qtd_numeros (s : gset Z) g,
  (size (universo ∖ s) < fuel)%nat ->
  exists s' g',
    preencher fuel qtd_numeros s g = Ok s' g' /\
    s ⊆ s' /\ s' ⊆ s ∪ universo /\
    (qtd_numeros <= Z.of_nat (size s') \/ universo ⊆ s').
Proof.
  induction fuel as [|fuel IH]; intros qtd s g Hfuel; [lia|].
  simpl. destruct (Z.of_nat (size s) <? qtd) eqn:Hlt.
  - destruct (set_to_list (universo ∖ s)) as [|y resto] eqn:Hresto.
    + exists s, g. split; [reflexivity|]. split; [set_solver|].
      split; [set_solver|]. right. intros x Hx.
      destruct (decide (x ∈ s)) as [|Hn]; [assumption|].
      assert (Hin : x ∈ set_to_list (universo ∖ s))
        by (apply elem_of_set_to_list; set_solver).
      rewrite Hresto in Hin. now apply not_elem_of_nil in Hin.
    + destruct (choice_Ok (y :: resto) g) as (x & Hc & Hx); [discriminate|].
      rewrite <- Hresto in Hx. apply elem_of_set_to_list in Hx.
      destruct (preencher_turn s x Hx) as (_ & Hdec).
      destruct (IH qtd ({[x]} ∪ s) (fun i => g (S i))) as (s' & g' & E & H1 & H2 & H3);
        [lia|].
      exists s', g'. rewrite (bind_eq_Ok _ _ _ _ _ Hc).
      split; [assumption|]. split; [clear -H1; set_solver|].
      split; [clear -H2 Hx; set_solver | assumption].
  - exists s, g. split; [reflexivity|]. split; [set_solver|].
    split; [set_solver|]. left. lia.
Qed.

Lemma fuel_preencher_enough (s : gset Z) :
  (size (universo ∖ s) < fuel_preencher)%nat.
Proof.
  assert (size (universo ∖ s) <= size universo)%nat
    by (apply subseteq_size; set_solver).
  rewrite size_universo in H. unfold fuel_preencher, NUM_MAX. lia.
Qed.

(** ** What [gerar_combinacao_proporcional] returns *)

Lemma escolhidos_Ok top n g l g' :
  escolhidos top n g = Ok l g' -> forall x, x ∈ l -> x ∈ top.
Proof.
  unfold escolhidos. destruct (Z.of_nat (length top) <? n).
  - intros [= <- <-]. auto.
  - intros H x Hx. apply sample_Ok in H as (_ & _ & r & Hr).
    rewrite Hr. apply elem_of_app. now left.
Qed.

Lemma escolhidos_not_OutOfFuel top n g : escolhidos top n g <> OutOfFuel.
Proof.
  unfold escolhidos. destruct (Z.of_nat (length top) <? n);
    [discriminate | apply sample_not_OutOfFuel].
Qed.

Lemma gerar_combinacao_proporcional_Ok qtd_numeros foco top_freq top_atra g l g' :
  gerar_combinacao_proporcional qtd_numeros foco top_freq top_atra g = Ok l g' ->
  NoDup l /\
  (forall x, x ∈ l -> x ∈ top_freq \/ x ∈ top_atra \/ NUM_MIN <= x <= NUM_MAX) /\
  (qtd_numeros <= NUM_MAX -> Z.of_nat (length l) = qtd_numeros).
Proof.
  unfold gerar_combinacao_proporcional. intros H.
  apply bind_Ok in H as (n & g1 & _ & H).
  apply bind_Ok in H as (ef & g2 & Hef & H).
  apply bind_Ok in H as (ea & g3 & Hea & H).
  apply bind_Ok in H as (s' & g4 & Hs' & H).
  apply bind_Ok in H as (cl & g5 & Hcl & H).
  destruct (shuffle_Ok cl g5) as (l0 & g6 & Hsh & Hperm).
  rewrite Hsh in H. injection H as -> ->.
  destruct (preencher_Ok fuel_preencher qtd_numeros
              (list_to_set (ef ++ ea)) g3 (fuel_preencher_enough _))
    as (s1 & g7 & E & Hsub1 & Hsub2 & Hsize).
  rewrite E in Hs'. injection Hs' as -> ->.
  assert (Hmem : forall x, x ∈ s' -> x ∈ top_freq \/ x ∈ top_atra \/ NUM_MIN <= x <= NUM_MAX).
  { intros x Hx. apply Hsub2 in Hx. apply elem_of_union in Hx as [Hx | Hx].
    - apply elem_of_list_to_set, elem_of_app in Hx as [Hx | Hx].
      + left. eapply escolhidos_Ok; eauto.
      + right; left. eapply escolhidos_Ok; eauto.
    - right; right. now apply elem_of_universo. }
  assert (Hge : qtd_numeros <= NUM_MAX -> qtd_numeros <= Z.of_nat (size s')).
  { intros Hq. destruct Hsize as [|Hu]; [assumption|].
    apply subseteq_size in Hu. rewrite size_universo in Hu. unfold NUM_MAX in Hq. lia. }
  destruct (qtd_numeros <? Z.of_nat (size s')) eqn:Hcut.
  - apply sample_Ok in Hcl as (_ & Hlen & r & Hr).
    pose proof (NoDup_set_to_list s') as Hnd. rewrite Hr in Hnd.
    apply NoDup_app in Hnd as (Hnd & _ & _).
    split; [now rewrite Hperm|]. split.
    + intros x Hx. rewrite Hperm in Hx. apply Hmem, elem_of_set_to_list.
      rewrite Hr. apply elem_of_app. now left.
    + intros _. now rewrite Hperm.
  - injection Hcl as <- <-.
    split; [rewrite Hperm; apply NoDup_set_to_list|]. split.
    + intros x Hx. rewrite Hperm in Hx. now apply Hmem, elem_of_set_to_list.
    + intros Hq. rewrite Hperm, length_set_to_list. specialize (Hge Hq). lia.
Qed.

Lemma lift_not_OutOfFuel {A} (r : exn + A) g : lift r g <> OutOfFuel.
Proof. destruct r; discriminate. Qed.

Lemma gerar_combinacao_proporcional_not_OutOfFuel qtd_numeros foco top_freq top_atra g :
  gerar_combinacao_proporcional qtd_numeros foco top_freq top_atra g <> OutOfFuel.
Proof.
  unfold gerar_combinacao_proporcional. intros H.
  apply bind_OutOfFuel in H as [H | (n & g1 & _ & H)];
    [now apply lift_not_OutOfFuel in H|].
  apply bind_OutOfFuel in H as [H | (ef & g2 & _ & H)];
    [now apply escolhidos_not_OutOfFuel in H|].
  apply bind_OutOfFuel in H as [H | (ea & g3 & _ & H)];
    [now apply escolhidos_not_OutOfFuel in H|].
  apply bind_OutOfFuel in H as [H | (s' & g4 & _ & H)].
  { destruct (preencher_Ok fuel_preencher qtd_numeros (list_to_set (ef ++ ea)) g3
                (fuel_preencher_enough _)) as (s1 & g7 & E & _).
    congruence. }
  apply bind_OutOfFuel in H as [H | (cl & g5 & _ & H)].
  { destruct (qtd_numeros <? Z.of_nat (size s'));
      [now apply sample_not_OutOfFuel in H | discriminate]. }
  destruct (shuffle_Ok cl g5) as (l0 & g6 & Hsh & _). congruence.
Qed.

(** ** What [gerar_aposta] returns *)

Lemma tentativa_Some df qtd_numeros prop_impares foco top_freq top_atra g comb g' :
  tentativa df qtd_numeros prop_impares foco top_freq top_atra g = Ok (Some comb) g' ->
  (exists c, gerar_combinacao_proporcional qtd_numeros foco top_freq top_atra g = Ok c g' /\
             comb = sorted c) /\
  aprovada df qtd_numeros prop_impares comb.
Proof.
  unfold tentativa. intros H.
  apply bind_Ok in H as (c & g1 & Hc & H).
  apply bind_Ok in H as (f & g2 & Hf & H).
  destruct (true_div (conta_impares (sorted c)) qtd_numeros) as [e | f0] eqn:Hdiv;
    [discriminate|].
  injection Hf as <- <-.
  destruct (na_janela prop_impares f0) eqn:Hj; [|discriminate].
  destruct (ja_saiu_no_historico (sorted c) df) eqn:Hs; [discriminate|].
  destruct (tem_mais_de_3_consecutivos (sorted c)) eqn:Ht; [discriminate|].
  simpl in H. injection H as <- <-.
  split; [eauto|]. unfold aprovada. rewrite Hdiv. eauto.
Qed.

Lemma gerar_aposta_loop_Ok fuel df qtd_numeros prop_impares foco top_freq top_atra :
  forall g comb g',
  gerar_aposta_loop fuel df qtd_numeros prop_impares foco top_freq top_atra g = Ok comb g' ->
  exists g0,
    tentativa df qtd_numeros prop_impares foco top_freq top_atra g0 = Ok (Some comb) g'.
Proof.
  induction fuel as [|fuel IH]; intros g comb g'; simpl; [discriminate|].
  intros H. apply bind_Ok in H as ([c|] & g1 & Ht & H).
  - injection H as <- <-. eauto.
  - eauto.
Qed.

(** Whatever [gerar_aposta] returns is the sorted result of one run of
    [gerar_combinacao_proporcional] on the two pools, and passed the
    three checks. *)
Lemma gerar_aposta_Ok fuel df freq atraso qtd_numeros prop_impares foco g comb g' :
  gerar_aposta fuel df freq atraso qtd_numeros prop_impares foco g = Ok comb g' ->
  (exists g0 c,
     gerar_combinacao_proporcional qtd_numeros foco
       (top30 Z.geb freq) (top30 geb_nan atraso) g0 = Ok c g' /\
     comb = sorted c) /\
  aprovada df qtd_numeros prop_impares comb.
Proof.
  unfold gerar_aposta. intros H.
  apply gerar_aposta_loop_Ok in H as (g0 & H).
  apply tentativa_Some in H as ((c & Hc & ->) & Hap).
  split; eauto.
Qed.

(** ** Tables over the range 1..60 *)

Lemma elem_of_faixa x : x ∈ faixa <-> NUM_MIN <= x <= NUM_MAX.
Proof. unfold faixa. rewrite elem_of_seqZ. unfold NUM_MIN, NUM_MAX. lia. Qed.

Lemma rotulos_map_faixa {A} (f : Z -> A) :
  rotulos_na_faixa (map (fun n => (n, f n)) faixa).
Proof.
  unfold rotulos_na_faixa. apply Forall_forall. intros kv Hkv.
  apply list_elem_of_In, in_map_iff in Hkv as (n & <- & Hn). simpl.
  now apply elem_of_faixa, list_elem_of_In.
Qed.

Lemma rotulos_calcular_frequencia_numeros df :
  rotulos_na_faixa (calcular_frequencia_numeros df).
Proof. apply rotulos_map_faixa. Qed.

Lemma rotulos_calcular_atraso_numeros df :
  rotulos_na_faixa (calcular_atraso_numeros df).
Proof. apply rotulos_map_faixa. Qed.

Lemma top30_na_faixa {A} (geb : A -> A -> bool) (s : Series A) x :
  rotulos_na_faixa s -> x ∈ top30 geb s -> NUM_MIN <= x <= NUM_MAX.
Proof.
  unfold top30, rotulos_na_faixa. intros Hs Hx.
  apply subseteq_take in Hx.
  apply list_elem_of_In, in_map_iff in Hx as (kv & <- & Hkv).
  apply list_elem_of_In in Hkv. rewrite merge_sort_Permutation in Hkv.
  rewrite Forall_forall in Hs. auto.
Qed.

(** ** C2: size, distinctness and range of a generated combination *)

(** C2.  Whatever the history, the focus and the random stream, a
    combination returned by [gerar_aposta] for a requested count between 6
    and 15 (tables labelled by numbers of 1..60) has exactly the requested
    count of elements, all distinct and all between 1 and 60. *)
Theorem gerar_aposta_tamanho_distintos_faixa
    fuel df freq atraso qtd_numeros prop_impares foco g comb g' :
  6 <= qtd_numeros <= 15 ->
  rotulos_na_faixa freq ->
  rotulos_na_faixa atraso ->
  gerar_aposta fuel df freq atraso qtd_numeros prop_impares foco g = Ok comb g' ->
  Z.of_nat (length comb) = qtd_numeros /\
  NoDup comb /\
  Forall (fun x => 1 <= x <= 60) comb.
Proof.
  intros Hq Hf Ha H.
  apply gerar_aposta_Ok in H as ((g0 & c & Hc & ->) & _).
  apply gerar_combinacao_proporcional_Ok in Hc as (Hnd & Hmem & Hlen).
  split; [|split].
  - rewrite sorted_perm. apply Hlen. unfold NUM_MAX. lia.
  - now rewrite sorted_perm.
  - rewrite sorted_perm. apply Forall_forall. intros x Hx.
    destruct (Hmem x Hx) as [Hx' | [Hx' | Hx']].
    + now apply (top30_na_faixa Z.geb freq).
    + now apply (top30_na_faixa geb_nan atraso).
    + exact Hx'.
Qed.

Lemma gerar_aposta_tamanho_distintos_faixa_witness :
  Z.of_nat (length [15; 19; 27; 36; 38; 59]) = 6 /\
  NoDup [15; 19; 27; 36; 38; 59] /\
  Forall (fun x => 1 <= x <= 60) [15; 19; 27; 36; 38; 59].
Proof.
  eapply (gerar_aposta_tamanho_distintos_faixa 20 historico_exemplo
            (calcular_frequencia_numeros historico_exemplo)
            (calcular_atraso_numeros historico_exemplo)
            6 (proporcao_impares_pares historico_exemplo) "equilibrado"
            fluxo_exemplo).
  - lia.
  - apply rotulos_calcular_frequencia_numeros.
  - apply rotulos_calcular_atraso_numeros.
  - vm_compute. reflexivity.
Defined.

(** ** C3: runs of consecutive integers *)

Lemma sequencia_de_4_cons x l :
  sequencia_de_4 (x :: l) <->
  (exists t, l = x + 1 :: x + 2 :: x + 3 :: t) \/ sequencia_de_4 l.
Proof.
  unfold sequencia_de_4. split.
  - intros (l1 & l2 & y & H). destruct l1 as [|a l1]; simpl in H.
    + injection H as -> ->. left. eauto.
    + injection H as -> ->. right. eauto.
  - intros [(t & ->) | (l1 & l2 & y & ->)].
    + exists [], t, x. reflexivity.
    + exists (x :: l1), l2, y. reflexivity.
Qed.

Lemma sequencia_de_4_nil : ~ sequencia_de_4 [].
Proof. intros (l1 & l2 & y & H). destruct l1; discriminate. Qed.

(** The loop, for each value the counter can have on entry. *)
Lemma consecutivos_loop_spec l : forall prev,
  (consecutivos_loop prev 1 l = true <->
     (exists t, l = prev + 1 :: prev + 2 :: prev + 3 :: t) \/ sequencia_de_4 l) /\
  (consecutivos_loop prev 2 l = true <->
     (exists t, l = prev + 1 :: prev + 2 :: t) \/ sequencia_de_4 l) /\
  (consecutivos_loop prev 3 l = true <->
     (exists t, l = prev + 1 :: t) \/ sequencia_de_4 l).
Proof.
  induction l as [|x l IH]; intros prev.
  - simpl. pose proof sequencia_de_4_nil.
    repeat split; try discriminate; intros [(t & ?) | ?]; try discriminate; tauto.
  - destruct (IH x) as (IH1 & IH2 & IH3). simpl.
    rewrite sequencia_de_4_cons.
    destruct (Z.eqb_spec x (prev + 1)) as [-> | Hne]; simpl.
    + rewrite IH2, IH3.
      replace (prev + 1 + 1) with (prev + 2) by lia.
      replace (prev + 1 + 2) with (prev + 3) by lia.
      replace (prev + 1 + 3) with (prev + 4) by lia.
      split; [|split]; (split; [|try reflexivity]).
      * intros [(t & ->) | ?]; eauto.
      * intros [(t & [= ->]) | [(t & ->) | ?]]; eauto.
      * intros [(t & ->) | ?]; eauto.
      * intros [(t & [= ->]) | [(t & ->) | ?]]; eauto.
      * eauto.
    + rewrite IH1.
      split; [|split]; (split; [tauto|]);
        (intros [(t & [= ? ?]) | ?]; [congruence | assumption]).
Qed.

Lemma tem_mais_de_3_consecutivos_sequencia c :
  tem_mais_de_3_consecutivos c = true <-> sequencia_de_4 (sorted c).
Proof.
  unfold tem_mais_de_3_consecutivos. destruct (sorted c) as [|x l].
  - split; [discriminate | intros H; now apply sequencia_de_4_nil in H].
  - rewrite sequencia_de_4_cons. apply consecutivos_loop_spec.
Qed.

Lemma sorted_StronglySorted_lt c : NoDup c -> StronglySorted Z.lt (sorted c).
Proof.
  intros Hnd. rewrite <- sorted_perm in Hnd.
  pose proof (StronglySorted_merge_sort Z.le c) as Hs. fold (sorted c) in Hs.
  induction Hs as [|a l Hs IH Hall]; [constructor|].
  apply NoDup_cons in Hnd as (Hnotin & Hnd).
  constructor; [auto|].
  rewrite Forall_forall in *. intros x Hx.
  assert (x <> a) by (intros ->; now apply Hnotin).
  pose proof (Hall x Hx). lia.
Qed.

Lemma StronglySorted_lt_succ a l :
  StronglySorted Z.lt (a :: l) -> a + 1 ∈ l -> exists t, l = a + 1 :: t.
Proof.
  intros Hs Hin. apply StronglySorted_inv in Hs as (Hs & Hall).
  destruct l as [|b l]; [now apply not_elem_of_nil in Hin|].
  apply Forall_cons in Hall as (Hab & _).
  apply elem_of_cons in Hin as [-> | Hin]; [eauto|].
  apply StronglySorted_inv in Hs as (_ & Hall).
  rewrite Forall_forall in Hall. apply Hall in Hin. lia.
Qed.

Lemma StronglySorted_lt_sequencia l :
  StronglySorted Z.lt l -> contem_4_seguidos l -> sequencia_de_4 l.
Proof.
  intros Hs (y & H0 & H1 & H2 & H3).
  induction Hs as [|a l Hs IH Hall]; [now apply not_elem_of_nil in H0|].
  apply sequencia_de_4_cons.
  assert (Hss : StronglySorted Z.lt (a :: l)) by now constructor.
  rewrite Forall_forall in Hall.
  destruct (decide (y = a)) as [-> | Hne].
  - left.
    apply elem_of_cons in H1 as [? | H1]; [lia|].
    apply elem_of_cons in H2 as [? | H2]; [lia|].
    apply elem_of_cons in H3 as [? | H3]; [lia|].
    destruct (StronglySorted_lt_succ _ _ Hss H1) as (t1 & ->).
    apply elem_of_cons in H2 as [? | H2]; [lia|].
    apply elem_of_cons in H3 as [? | H3]; [lia|].
    destruct (StronglySorted_lt_succ _ _ Hs) as (t2 & ->);
      [now replace (a + 1 + 1) with (a + 2) by lia|].
    apply elem_of_cons in H3 as [? | H3]; [lia|].
    apply StronglySorted_inv in Hs as (Hs & _).
    destruct (StronglySorted_lt_succ _ _ Hs) as (t3 & ->);
      [now replace (a + 1 + 1 + 1) with (a + 3) by lia|].
    exists t3. replace (a + 1 + 1 + 1) with (a + 3) by lia.
    now replace (a + 1 + 1) with (a + 2) by lia.
  - right.
    apply elem_of_cons in H0 as [? | H0]; [congruence|].
    pose proof (Hall y H0).
    apply elem_of_cons in H1 as [? | H1]; [lia|].
    apply elem_of_cons in H2 as [? | H2]; [lia|].
    apply elem_of_cons in H3 as [? | H3]; [lia|].
    auto.
Qed.

Lemma sequencia_contem l : sequencia_de_4 l -> contem_4_seguidos l.
Proof.
  intros (l1 & l2 & y & ->). exists y.
  repeat split; apply elem_of_app; right; apply elem_of_app; left;
    repeat (first [apply list_elem_of_here | apply list_elem_of_further]).
Qed.

Lemma tem_mais_de_3_consecutivos_contem c :
  NoDup c ->
  tem_mais_de_3_consecutivos c = true <-> contem_4_seguidos c.
Proof.
  intros Hnd. rewrite tem_mais_de_3_consecutivos_sequencia. split.
  - intros H. apply sequencia_contem in H as (y & H).
    exists y. now rewrite !sorted_perm in H.
  - intros (y & H). apply StronglySorted_lt_sequencia.
    + now apply sorted_StronglySorted_lt.
    + exists y. now rewrite !sorted_perm.
Qed.

(** C3.  [tem_mais_de_3_consecutivos] answers [True] exactly when the
    sorted combination has four neighbouring cells [y, y+1, y+2, y+3]; for
    a combination of distinct numbers that is exactly when it holds four
    consecutive integers.  A run of three passes ([5, 6, 7] gives [False],
    [5, 6, 7, 8] gives [True]), and a combination returned by
    [gerar_aposta] never holds four consecutive integers. *)
Theorem tem_mais_de_3_consecutivos_correto
    (c : list Z) fuel df freq atraso qtd_numeros prop_impares foco g comb g' :
  (tem_mais_de_3_consecutivos c = true <-> sequencia_de_4 (sorted c)) /\
  (NoDup c -> (tem_mais_de_3_consecutivos c = true <-> contem_4_seguidos c)) /\
  tem_mais_de_3_consecutivos [7; 5; 6] = false /\
  tem_mais_de_3_consecutivos [7; 5; 8; 6] = true /\
  (gerar_aposta fuel df freq atraso qtd_numeros prop_impares foco g = Ok comb g' ->
   tem_mais_de_3_consecutivos comb = false /\
   ~ sequencia_de_4 comb /\ ~ contem_4_seguidos comb).
Proof.
  split; [apply tem_mais_de_3_consecutivos_sequencia|].
  split; [apply tem_mais_de_3_consecutivos_contem|].
  split; [reflexivity|]. split; [reflexivity|].
  intros H. apply gerar_aposta_Ok in H as ((g0 & c0 & Hc & ->) & (_ & _ & Ht)).
  apply gerar_combinacao_proporcional_Ok in Hc as (Hnd & _ & _).
  rewrite <- sorted_perm in Hnd.
  split; [assumption|]. split.
  - intros Hs. apply sequencia_contem in Hs.
    apply tem_mais_de_3_consecutivos_contem in Hs; [congruence | assumption].
  - intros Hs. apply tem_mais_de_3_consecutivos_contem in Hs; [congruence | assumption].
Qed.

Lemma tem_mais_de_3_consecutivos_correto_witness :
  tem_mais_de_3_consecutivos [15; 19; 27; 36; 38; 59] = false /\
  ~ sequencia_de_4 [15; 19; 27; 36; 38; 59] /\
  ~ contem_4_seguidos [15; 19; 27; 36; 38; 59].
Proof.
  eapply (tem_mais_de_3_consecutivos_correto [5; 6; 7; 8] 20 historico_exemplo
            (calcular_frequencia_numeros historico_exemplo)
            (calcular_atraso_numeros historico_exemplo)
            6 (proporcao_impares_pares historico_exemplo) "equilibrado"
            fluxo_exemplo).
  vm_compute. reflexivity.
Defined.

(** ** C5: no exact repetition of a past draw *)

Lemma mesmo_conjunto_elem a b :
  mesmo_conjunto a b <-> forall x, x ∈ a <-> x ∈ b.
Proof.
  unfold mesmo_conjunto. rewrite set_eq.
  split; intros H x; specialize (H x); now rewrite !elem_of_list_to_set in *.
Qed.

Lemma ja_saiu_no_historico_spec combinacao df :
  ja_saiu_no_historico combinacao df = true <->
  exists r, r ∈ df /\ mesmo_conjunto combinacao (BOLAS r).
Proof.
  unfold ja_saiu_no_historico, mesmo_conjunto. rewrite existsb_exists. split.
  - intros (r & Hr & Hb). exists r.
    split; [now apply list_elem_of_In|]. now apply bool_decide_eq_true in Hb.
  - intros (r & Hr & Hb). exists r.
    split; [now apply list_elem_of_In|]. now apply bool_decide_eq_true.
Qed.

(** C5.  [ja_saiu_no_historico] answers [True] exactly when the set of the
    combination is the set of the drawn numbers of some row of the
    history; a combination returned by [gerar_aposta] (for six numbers as
    for any other count) has the set of no past draw. *)
Theorem gerar_aposta_nao_repete_historico
    (c : list Z) fuel df freq atraso qtd_numeros prop_impares foco g comb g' :
  (ja_saiu_no_historico c df = true <->
     exists r, r ∈ df /\ mesmo_conjunto c (BOLAS r)) /\
  (gerar_aposta fuel df freq atraso qtd_numeros prop_impares foco g = Ok comb g' ->
   forall r, r ∈ df -> ~ mesmo_conjunto comb (BOLAS r)).
Proof.
  split; [apply ja_saiu_no_historico_spec|].
  intros H r Hr Hsame.
  apply gerar_aposta_Ok in H as (_ & (_ & Hs & _)).
  assert (ja_saiu_no_historico comb df = true)
    by (apply ja_saiu_no_historico_spec; eauto).
  congruence.
Qed.

Lemma gerar_aposta_nao_repete_historico_witness :
  ~ mesmo_conjunto aposta_exemplo [4; 5; 30; 33; 41; 52].
Proof.
  assert (H : exists g',
             gerar_aposta 3 historico_exemplo
               (calcular_frequencia_numeros historico_exemplo)
               (calcular_atraso_numeros historico_exemplo)
               6 (proporcao_impares_pares historico_exemplo) "equilibrado" fluxo_exemplo
             = Ok aposta_exemplo g')
    by (eexists; vm_compute; reflexivity).
  destruct H as (g' & H).
  destruct (gerar_aposta_nao_repete_historico [4; 5; 30; 33; 41; 52] 3 historico_exemplo
              (calcular_frequencia_numeros historico_exemplo)
              (calcular_atraso_numeros historico_exemplo)
              6 (proporcao_impares_pares historico_exemplo) "equilibrado"
              fluxo_exemplo aposta_exemplo g') as (_ & Hn).
  apply (Hn H {| CONCURSO := 1; BOLAS := [4; 5; 30; 33; 41; 52]; CONCURSO_int64 := I |}).
  unfold historico_exemplo. now left.
Defined.

(** ** C6: the quotas *)

Lemma teto_spec a b : 0 < b -> (teto a b - 1) * b < a <= teto a b * b.
Proof.
  intros Hb. unfold teto.
  pose proof (Z.div_mod (- a) b ltac:(lia)).
  pose proof (Z.mod_pos_bound (- a) b Hb). nia.
Qed.

(** C6.  For a count between 6 and 15 the quotas are the exact ones:
    with focus 'frequentes' the frequent quota is the ceiling of 0.8 N
    (that is of 4 N / 5) and the stale quota the rest; with 'atrasados' the
    stale quota is that ceiling and the frequent quota the rest; with
    'equilibrado' the frequent quota is the ceiling of N / 2 and the stale
    quota the rest.  So 11 'frequentes' gives 9 and 2, and 10
    'equilibrado' gives 5 and 5. *)
Theorem n_freq_n_atra_exatas (N : Z) :
  6 <= N <= 15 ->
  n_freq_n_atra N "frequentes" = inr (teto (4 * N) 5, N - teto (4 * N) 5) /\
  n_freq_n_atra N "atrasados" = inr (N - teto (4 * N) 5, teto (4 * N) 5) /\
  n_freq_n_atra N "equilibrado" = inr (teto N 2, N - teto N 2) /\
  n_freq_n_atra 11 "frequentes" = inr (9, 2) /\
  n_freq_n_atra 10 "equilibrado" = inr (5, 5).
Proof.
  intros HN.
  assert (H : N = 6 \/ N = 7 \/ N = 8 \/ N = 9 \/ N = 10 \/ N = 11 \/
              N = 12 \/ N = 13 \/ N = 14 \/ N = 15) by lia.
  repeat destruct H as [-> | H]; try subst N; vm_compute; repeat split.
Qed.

Lemma n_freq_n_atra_exatas_witness :
  n_freq_n_atra 13 "frequentes" = inr (teto (4 * 13) 5, 13 - teto (4 * 13) 5) /\
  n_freq_n_atra 13 "atrasados" = inr (13 - teto (4 * 13) 5, teto (4 * 13) 5) /\
  n_freq_n_atra 13 "equilibrado" = inr (teto 13 2, 13 - teto 13 2) /\
  n_freq_n_atra 11 "frequentes" = inr (9, 2) /\
  n_freq_n_atra 10 "equilibrado" = inr (5, 5).
Proof. apply (n_freq_n_atra_exatas 13). lia. Defined.

(** The quotas are the counts [gerar_combinacao_proporcional] asks of the
    two pools. *)
Lemma gerar_combinacao_proporcional_cotas qtd_numeros foco top_freq top_atra n_freq n_atra g :
  n_freq_n_atra qtd_numeros foco = inr (n_freq, n_atra) ->
  gerar_combinacao_proporcional qtd_numeros foco top_freq top_atra g =
  (escolhidos_freq <- escolhidos top_freq n_freq ;;
   escolhidos_atra <- escolhidos top_atra n_atra ;;
   comb_set <- preencher fuel_preencher qtd_numeros
                 (list_to_set (escolhidos_freq ++ escolhidos_atra)) ;;
   comb_list <- (if qtd_numeros <? Z.of_nat (size comb_set)
                 then random.sample (set_to_list comb_set) qtd_numeros
                 else ret (set_to_list comb_set)) ;;
   random.shuffle comb_list) g.
Proof.
  intros H. unfold gerar_combinacao_proporcional. rewrite H. reflexivity.
Qed.

(** ** C8: the staleness table *)

Lemma ultima_aparicao_None n df :
  ultima_aparicao n df = None <-> forall r, r ∈ df -> n ∉ BOLAS r.
Proof.
  induction df as [|r df IH]; simpl.
  - split; [intros _ r Hr; now apply not_elem_of_nil in Hr | reflexivity].
  - destruct (ultima_aparicao n df) as [c|].
    + split; [discriminate|]. intros H.
      assert (Some c = None) by (apply IH; intros; apply H; now right).
      discriminate.
    + case_bool_decide as Hin.
      * split; [discriminate|]. intros H. exfalso. apply (H r); [now left | assumption].
      * split; [|reflexivity]. intros _ r' Hr'.
        apply elem_of_cons in Hr' as [-> | Hr']; [assumption|].
        now apply IH.
Qed.

Lemma ultima_aparicao_Some n df c :
  ultima_aparicao n df = Some c ->
  exists r, r ∈ df /\ n ∈ BOLAS r /\ CONCURSO r = c.
Proof.
  induction df as [|r df IH]; simpl; [discriminate|].
  destruct (ultima_aparicao n df) as [c'|].
  - intros [= <-]. destruct (IH eq_refl) as (r' & ? & ? & ?).
    exists r'. split; [now right | auto].
  - case_bool_decide; [|discriminate]. intros [= <-].
    exists r. split; [now left | auto].
Qed.

Lemma registra_bolas (c : Z) bolas : forall (m : gmap Z Z) n,
  foldl (fun m num => <[num := c]> m) m bolas !! n =
  if bool_decide (n ∈ bolas) then Some c else m !! n.
Proof.
  induction bolas as [|b bolas IH]; intros m n; cbn [foldl].
  - case_bool_decide as H; [now apply not_elem_of_nil in H | reflexivity].
  - rewrite IH. destruct (decide (n ∈ bolas)) as [Hin | Hin].
    + rewrite !bool_decide_eq_true_2; [reflexivity | now right | assumption].
    + rewrite (bool_decide_eq_false_2 _ Hin).
      destruct (decide (n = b)) as [-> | Hne].
      * rewrite bool_decide_eq_true_2 by now left. apply lookup_insert_eq.
      * rewrite bool_decide_eq_false_2.
        -- now apply lookup_insert_ne.
        -- intros [? | ?]%elem_of_cons; congruence.
Qed.

Lemma registra_sorteios df : forall (m : gmap Z Z) n,
  foldl (fun m r => foldl (fun m num => <[num := CONCURSO r]> m) m (BOLAS r)) m df !! n =
  match ultima_aparicao n df with
  | Some c => Some c
  | None => m !! n
  end.
Proof.
  induction df as [|r df IH]; intros m n; simpl; [reflexivity|].
  rewrite IH. destruct (ultima_aparicao n df); [reflexivity|].
  rewrite registra_bolas. now case_bool_decide.
Qed.

Lemma NoDup_faixa : NoDup faixa.
Proof. apply NoDup_seqZ. Qed.

Lemma rotulos_tabela {A} (f : Z -> A) (l : list Z) :
  (map (fun n => (n, f n)) l).*1 = l.
Proof. induction l as [|a l IH]; [reflexivity|]. cbn. f_equal. exact IH. Qed.

Lemma lookup_tabela_faixa {A} (f : Z -> A) n :
  NUM_MIN <= n <= NUM_MAX ->
  (list_to_map (map (fun n => (n, f n)) faixa) : gmap Z A) !! n = Some (f n).
Proof.
  intros Hn. apply elem_of_list_to_map_1.
  - rewrite rotulos_tabela. apply NoDup_faixa.
  - apply list_elem_of_In, in_map_iff. exists n.
    split; [reflexivity|]. now apply list_elem_of_In, elem_of_faixa.
Qed.

Lemma ultimo_concurso_num_lookup df n :
  NUM_MIN <= n <= NUM_MAX ->
  ultimo_concurso_num df !!! n = default (-1) (ultima_aparicao n df).
Proof.
  intros Hn. apply lookup_total_correct.
  unfold ultimo_concurso_num. rewrite registra_sorteios.
  destruct (ultima_aparicao n df); [reflexivity|].
  now rewrite (lookup_tabela_faixa (fun _ => -1)).
Qed.

Lemma Series_max_spec l :
  l <> [] ->
  exists m, Series_max l = Some m /\ m ∈ l /\ forall x, x ∈ l -> x <= m.
Proof.
  destruct l as [|a l]; [congruence|]. intros _. simpl.
  exists (foldr Z.max a l). split; [reflexivity|].
  induction l as [|b l IH]; simpl.
  - split; [now left|]. intros x Hx. apply list_elem_of_singleton in Hx. lia.
  - destruct IH as (Hin & Hmax). split.
    + destruct (Z.max_spec b (foldr Z.max a l)) as [(_ & ->) | (_ & ->)].
      * apply elem_of_cons in Hin as [-> | ?]; [now left | now right; right].
      * right; now left.
    + intros x Hx. apply elem_of_cons in Hx as [-> | Hx].
      * specialize (Hmax a ltac:(now left)). lia.
      * apply elem_of_cons in Hx as [-> | Hx]; [lia|].
        specialize (Hmax x ltac:(now right)). lia.
Qed.

Lemma CONCURSO_faixa (r : sorteio) : int64_min <= CONCURSO r <= int64_max.
Proof.
  pose proof (CONCURSO_int64 r) as H. unfold int64_ok in H.
  apply Is_true_true, andb_true_iff in H as (H1 & H2).
  apply Z.leb_le in H1, H2. lia.
Qed.

Lemma wrap_int64_id z : int64_min <= z <= int64_max -> wrap_int64 z = z.
Proof.
  unfold wrap_int64, int64_min, int64_max. intros H.
  rewrite Z.mod_small by lia. lia.
Qed.

(** In a history in ascending contest order, the most recent row holding
    [n] has the greatest contest number among the rows holding [n]. *)
Lemma ultima_aparicao_max n df c :
  StronglySorted (fun r1 r2 => CONCURSO r1 < CONCURSO r2) df ->
  ultima_aparicao n df = Some c ->
  forall r, r ∈ df -> n ∈ BOLAS r -> CONCURSO r <= c.
Proof.
  intros Hs. revert c. induction Hs as [|r0 df Hs IH Hall]; intros c; simpl.
  - discriminate.
  - intros Hc r Hr Hn. rewrite Forall_forall in Hall.
    destruct (ultima_aparicao n df) as [c'|] eqn:Hu.
    + injection Hc as <-. apply elem_of_cons in Hr as [-> | Hr]; [|eauto].
      apply ultima_aparicao_Some in Hu as (r' & Hr' & _ & <-).
      specialize (Hall r' Hr'). lia.
    + apply elem_of_cons in Hr as [-> | Hr].
      * rewrite bool_decide_eq_true_2 in Hc by assumption. injection Hc as <-. lia.
      * exfalso. rewrite ultima_aparicao_None in Hu. now apply (Hu r).
Qed.




(** The subtraction wraps around as on [int64]: with contests numbered
    -2^62 and 2^62 the staleness of a number of the first draw is -2^63. *)
Example atraso_int64 :
  Series_get (calcular_atraso_numeros
                [ {| CONCURSO := -4611686018427387904; BOLAS := [7; 8; 9; 10; 11; 12];
                     CONCURSO_int64 := I |};
                  {| CONCURSO := 4611686018427387904; BOLAS := [1; 2; 3; 4; 5; 6];
                     CONCURSO_int64 := I |} ]) 7
  = Some (Some (-9223372036854775808)).
Proof. reflexivity. Qed.

(** The mark -1 is taken for "never drawn": a contest numbered -1 would
    hide the draws it holds. *)
Example atraso_concurso_menos_1 :
  Series_get (calcular_atraso_numeros [ {| CONCURSO := -1; BOLAS := [1; 2; 3; 4; 5; 6]; CONCURSO_int64 := I |} ]) 1
  = Some (Some (-1)).
Proof. reflexivity. Qed.

Example atraso_41 :
  Series_get (calcular_atraso_numeros historico_exemplo) 41 = Some (Some 2).
Proof. reflexivity. Qed.

Example atraso_2 :
  Series_get (calcular_atraso_numeros historico_exemplo) 2 = Some (Some 4).
Proof. reflexivity. Qed.

(** ** C4: the window on the fraction of odd numbers *)

Lemma conta_impares_bounds l : 0 <= conta_impares l <= Z.of_nat (length l).
Proof.
  unfold conta_impares.
  pose proof (length_filter (fun x => impar x = true) l). lia.
Qed.

Lemma conta_impares_0 l : conta_impares l = 0 -> Forall (fun x => x mod 2 = 0) l.
Proof.
  unfold conta_impares. intros H.
  assert (Hnil : filter (fun x => impar x = true) l = [])
    by (apply length_zero_iff_nil; lia).
  apply Forall_forall. intros x Hx.
  destruct (Z.eqb_spec (x mod 2) 0) as [|Hne]; [assumption|].
  assert (Hin : x ∈ filter (fun x => impar x = true) l).
  { apply list_elem_of_filter. split; [|assumption].
    unfold impar. now apply negb_true_iff, Z.eqb_neq. }
  rewrite Hnil in Hin. now apply not_elem_of_nil in Hin.
Qed.

(** With at most 60 numbers, only a count of zero odd numbers gives a
    fraction that is not above zero: checked on every pair. *)
Lemma fracao_positiva_todas :
  forallb (fun n => forallb (fun k => fracao_positiva k n) (seqZ 1 n)) (seqZ 1 60) = true.
Proof. vm_compute. reflexivity. Qed.

Lemma fracao_positiva_ok k n :
  1 <= n <= 60 -> 1 <= k <= n -> fracao_positiva k n = true.
Proof.
  intros Hn Hk. pose proof fracao_positiva_todas as H.
  rewrite forallb_forall in H.
  specialize (H n ltac:(apply list_elem_of_In, elem_of_seqZ; lia)).
  rewrite forallb_forall in H.
  apply H, list_elem_of_In, elem_of_seqZ. lia.
Qed.

(** C4.  A combination returned by [gerar_aposta] (for a count of 1 to 60)
    has its fraction of odd numbers, computed in binary64 as the program
    does, inside the inclusive window from [0.8 p] to [1.2 p], where [p] is
    [prop_impares]; and when [p] is zero both ends of the window are zero
    and all numbers of the combination are even. *)
Theorem gerar_aposta_janela_impares
    fuel df freq atraso qtd_numeros prop_impares foco g comb g' :
  1 <= qtd_numeros <= 60 ->
  gerar_aposta fuel df freq atraso qtd_numeros prop_impares foco g = Ok comb g' ->
  (prop_impares * f0_8 <=? fracao_impares comb)%float = true /\
  (fracao_impares comb <=? prop_impares * f1_2)%float = true /\
  (prop_impares = 0%float ->
   (prop_impares * f0_8)%float = 0%float /\
   (prop_impares * f1_2)%float = 0%float /\
   Forall (fun x => x mod 2 = 0) comb).
Proof.
  intros Hq H.
  apply gerar_aposta_Ok in H as ((g0 & c & Hc & ->) & ((f & Hdiv & Hj) & _ & _)).
  apply gerar_combinacao_proporcional_Ok in Hc as (_ & _ & Hlen).
  specialize (Hlen ltac:(unfold NUM_MAX; lia)).
  rewrite <- (Permutation_length (sorted_perm c)) in Hlen.
  unfold fracao_impares. rewrite Hlen.
  unfold true_div in Hdiv.
  destruct (Z.eqb_spec qtd_numeros 0) as [|_]; [lia|]. injection Hdiv as <-.
  unfold na_janela in Hj. apply andb_true_iff in Hj as (Hlo & Hhi).
  split; [assumption|]. split; [assumption|].
  intros ->. split; [reflexivity|]. split; [reflexivity|].
  apply conta_impares_0.
  pose proof (conta_impares_bounds (sorted c)) as Hb.
  destruct (Z.eq_dec (conta_impares (sorted c)) 0) as [|Hne]; [assumption|].
  exfalso.
  pose proof (fracao_positiva_ok (conta_impares (sorted c)) qtd_numeros Hq ltac:(lia)) as Hp.
  unfold fracao_positiva in Hp. rewrite Hhi in Hp. discriminate.
Qed.

Lemma gerar_aposta_janela_impares_witness :
  (proporcao_impares_pares historico_um_sorteio * f0_8
   <=? fracao_impares aposta_pares)%float = true /\
  (fracao_impares aposta_pares
   <=? proporcao_impares_pares historico_um_sorteio * f1_2)%float = true /\
  (proporcao_impares_pares historico_um_sorteio * f0_8)%float = 0%float /\
  (proporcao_impares_pares historico_um_sorteio * f1_2)%float = 0%float /\
  Forall (fun x => x mod 2 = 0) aposta_pares.
Proof.
  assert (H : exists g',
             gerar_aposta 20 historico_um_sorteio
               (calcular_frequencia_numeros historico_um_sorteio)
               (calcular_atraso_numeros historico_um_sorteio)
               6 (proporcao_impares_pares historico_um_sorteio) "frequentes"
               fluxo_quadrados
             = Ok aposta_pares g')
    by (apply resultado_Ok; vm_compute; reflexivity).
  destruct H as (g' & H).
  destruct (gerar_aposta_janela_impares 20 historico_um_sorteio
              (calcular_frequencia_numeros historico_um_sorteio)
              (calcular_atraso_numeros historico_um_sorteio)
              6 (proporcao_impares_pares historico_um_sorteio) "frequentes"
              fluxo_quadrados aposta_pares g') as (H1 & H2 & H3);
    [lia | exact H |].
  split; [exact H1|]. split; [exact H2|]. apply H3. reflexivity.
Defined.

(** The example of the specification: with [p = 0.5] and six numbers only
    three odd numbers are inside the window. *)
Example janela_meio_6 :
  map (fun k => na_janela f0_5 (float_of_int k / float_of_int 6)%float) (seqZ 0 7)
  = [false; false; false; true; false; false; false].
Proof. reflexivity. Qed.

(** ** C10: termination of [gerar_combinacao_proporcional] *)

(** One turn of the filling loop either leaves the loop with the set as
    it is, or goes on with the set enlarged by one number of the range
    that it did not hold. *)
Lemma preencher_passo fuel qtd_numeros (s : gset Z) g :
  preencher (S fuel) qtd_numeros s g = Ok s g \/
  exists x,
    x ∈ universo /\ (x ∉ s) /\ size ({[x]} ∪ s) = S (size s) /\
    preencher (S fuel) qtd_numeros s g =
    preencher fuel qtd_numeros ({[x]} ∪ s) (fun i => g (S i)).
Proof.
  simpl. destruct (Z.of_nat (size s) <? qtd_numeros); [|now left].
  destruct (set_to_list (universo ∖ s)) as [|y resto] eqn:Hresto; [now left|].
  right. destruct (choice_Ok (y :: resto) g) as (x & Hc & Hx); [discriminate|].
  rewrite <- Hresto in Hx. apply elem_of_set_to_list in Hx.
  exists x. destruct (preencher_turn s x Hx) as (Hsize & _).
  apply elem_of_difference in Hx as (? & ?).
  repeat split; try assumption.
  now rewrite (bind_eq_Ok _ _ _ _ _ Hc).
Qed.

(** C10.  [gerar_combinacao_proporcional] terminates on every input: it
    returns a list or raises, whatever the count, the focus, the pools and
    the random stream.  Each turn of its filling loop either leaves the
    loop or enlarges the chosen set by one number of 1..60 it did not
    hold, so the loop is left after at most as many turns as there are
    numbers of the range outside the set. *)
Theorem gerar_combinacao_proporcional_termina
    qtd_numeros foco top_freq top_atra g fuel (s : gset Z) g0 :
  (exists r,
     resultado (gerar_combinacao_proporcional qtd_numeros foco top_freq top_atra g)
     = Some r) /\
  (preencher (S fuel) qtd_numeros s g0 = Ok s g0 \/
   exists x,
     x ∈ universo /\ (x ∉ s) /\ size ({[x]} ∪ s) = S (size s) /\
     preencher (S fuel) qtd_numeros s g0 =
     preencher fuel qtd_numeros ({[x]} ∪ s) (fun i => g0 (S i))) /\
  (exists s' g',
     preencher (S (size (universo ∖ s))) qtd_numeros s g0 = Ok s' g' /\ s ⊆ s') /\
  (size (universo ∖ s) < fuel_preencher)%nat.
Proof.
  split; [|split; [|split]].
  - pose proof (gerar_combinacao_proporcional_not_OutOfFuel
                  qtd_numeros foco top_freq top_atra g) as H.
    destruct (gerar_combinacao_proporcional qtd_numeros foco top_freq top_atra g)
      as [l g1 | e g1 |]; simpl; [eauto | eauto | congruence].
  - apply preencher_passo.
  - destruct (preencher_Ok (S (size (universo ∖ s))) qtd_numeros s g0)
      as (s' & g' & E & Hsub & _); [lia | eauto].
  - apply fuel_preencher_enough.
Qed.

(** ** C1: the loop of [gerar_aposta] has no attempt cap *)

Lemma escolhidos_returns top n g :
  0 <= n -> exists l g', escolhidos top n g = Ok l g'.
Proof.
  intros Hn. unfold escolhidos.
  destruct (Z.of_nat (length top) <? n) eqn:Hlen; [eexists _, _; reflexivity|].
  unfold random.sample.
  destruct (Z.ltb_spec n 0); [lia|]. rewrite Hlen. simpl.
  apply sample_loop_Ok.
Qed.

(** With quotas that are not negative the selection returns a list. *)
Lemma gerar_combinacao_proporcional_returns
    qtd_numeros foco top_freq top_atra n_freq n_atra g :
  n_freq_n_atra qtd_numeros foco = inr (n_freq, n_atra) ->
  0 <= n_freq -> 0 <= n_atra -> 0 <= qtd_numeros ->
  exists l g',
    gerar_combinacao_proporcional qtd_numeros foco top_freq top_atra g = Ok l g'.
Proof.
  intros Hn Hf Ha Hq.
  rewrite (gerar_combinacao_proporcional_cotas _ _ _ _ _ _ _ Hn).
  destruct (escolhidos_returns top_freq n_freq g Hf) as (ef & g1 & E1).
  rewrite (bind_eq_Ok _ _ _ _ _ E1).
  destruct (escolhidos_returns top_atra n_atra g1 Ha) as (ea & g2 & E2).
  rewrite (bind_eq_Ok _ _ _ _ _ E2).
  destruct (preencher_Ok fuel_preencher qtd_numeros (list_to_set (ef ++ ea)) g2
              (fuel_preencher_enough _)) as (s' & g3 & E3 & _).
  rewrite (bind_eq_Ok _ _ _ _ _ E3).
  assert (Hcl : exists cl g4,
             (if qtd_numeros <? Z.of_nat (size s')
              then random.sample (set_to_list s') qtd_numeros
              else ret (set_to_list s')) g3 = Ok cl g4).
  { destruct (Z.ltb_spec qtd_numeros (Z.of_nat (size s'))) as [Hlt|];
      [|eexists _, _; reflexivity].
    unfold random.sample. rewrite length_set_to_list.
    destruct (Z.ltb_spec qtd_numeros 0); [lia|].
    destruct (Z.ltb_spec (Z.of_nat (size s')) qtd_numeros); [lia|]. simpl.
    apply sample_loop_Ok. }
  destruct Hcl as (cl & g4 & E4). rewrite (bind_eq_Ok _ _ _ _ _ E4).
  destruct (shuffle_Ok cl g4) as (l & g5 & E5 & _). eauto.
Qed.

(** A result that the loop reaches within [fuel] turns is its result
    within any larger number of turns. *)
Lemma gerar_aposta_loop_mais_fuel fuel df qtd_numeros prop_impares foco top_freq top_atra :
  forall g o extra,
  gerar_aposta_loop fuel df qtd_numeros prop_impares foco top_freq top_atra g = o ->
  o <> OutOfFuel ->
  gerar_aposta_loop (fuel + extra) df qtd_numeros prop_impares foco top_freq top_atra g = o.
Proof.
  induction fuel as [|fuel IH]; intros g o extra; simpl.
  - intros <- H. congruence.
  - unfold bind.
    destruct (tentativa df qtd_numeros prop_impares foco top_freq top_atra g)
      as [[c|] g1 | e g1 |]; auto.
Qed.

(** No count of odd numbers among six is inside the window of 1/12. *)
Lemma janela_historico_pares k :
  0 <= k <= 6 ->
  na_janela (proporcao_impares_pares historico_pares)
            (float_of_int k / float_of_int 6)%float = false.
Proof.
  intros Hk.
  assert (H : k = 0 \/ k = 1 \/ k = 2 \/ k = 3 \/ k = 4 \/ k = 5 \/ k = 6) by lia.
  repeat destruct H as [-> | H]; try subst k; reflexivity.
Qed.

Lemma tentativa_historico_pares top_freq top_atra g :
  exists g',
    tentativa historico_pares 6 (proporcao_impares_pares historico_pares)
      "equilibrado" top_freq top_atra g = Ok None g'.
Proof.
  destruct (gerar_combinacao_proporcional_returns 6 "equilibrado" top_freq top_atra 3 3 g)
    as (c & g' & Hc); [reflexivity | lia..|].
  exists g'. unfold tentativa. rewrite (bind_eq_Ok _ _ _ _ _ Hc).
  apply gerar_combinacao_proporcional_Ok in Hc as (_ & _ & Hlen).
  specialize (Hlen ltac:(unfold NUM_MAX; lia)).
  pose proof (conta_impares_bounds (sorted c)) as Hb.
  rewrite (Permutation_length (sorted_perm c)) in Hb.
  unfold true_div, lift, bind, ret. simpl (6 =? 0).
  cbv beta iota. rewrite janela_historico_pares by lia. reflexivity.
Qed.

(** C1, counterexample.  On the history [historico_pares], for six numbers
    and the balanced focus, [gerar_aposta] gives neither a combination nor
    any error outcome, however many attempts it is given and whatever the
    random stream: the loop has no cap and runs forever. *)
Lemma gerar_aposta_limite_counterexample :
  ~ exists fuel g r,
      resultado (gerar_aposta fuel historico_pares
                   (calcular_frequencia_numeros historico_pares)
                   (calcular_atraso_numeros historico_pares)
                   6 (proporcao_impares_pares historico_pares) "equilibrado" g)
      = Some r.
Proof.
  intros (fuel & g & r & H). unfold gerar_aposta in H.
  revert g H. induction fuel as [|fuel IH]; intros g H; [discriminate|].
  cbn [gerar_aposta_loop] in H.
  destruct (tentativa_historico_pares
              (top30 Z.geb (calcular_frequencia_numeros historico_pares))
              (top30 geb_nan (calcular_atraso_numeros historico_pares)) g)
    as (g' & Ht).
  rewrite (bind_eq_Ok _ _ _ _ _ Ht) in H. eauto.
Qed.

(** The loop keeps no count: after [n] rejected attempts it goes on as a
    loop started in the state reached. *)
Lemma gerar_aposta_loop_rejeitadas df qtd_numeros prop_impares foco top_freq top_atra :
  forall n g gn k,
  rejeitadas (tentativa df qtd_numeros prop_impares foco top_freq top_atra) n g = Some gn ->
  gerar_aposta_loop (n + k) df qtd_numeros prop_impares foco top_freq top_atra g =
  gerar_aposta_loop k df qtd_numeros prop_impares foco top_freq top_atra gn.
Proof.
  induction n as [|n IH]; intros g gn k; cbn [rejeitadas Nat.add gerar_aposta_loop].
  - now intros [= ->].
  - unfold bind.
    destruct (tentativa df qtd_numeros prop_impares foco top_freq top_atra g)
      as [[c|] g1 | e g1 |]; try discriminate.
    apply IH.
Qed.

Lemma tentativa_not_OutOfFuel df qtd_numeros prop_impares foco top_freq top_atra g :
  tentativa df qtd_numeros prop_impares foco top_freq top_atra g <> OutOfFuel.
Proof.
  unfold tentativa, bind.
  pose proof (gerar_combinacao_proporcional_not_OutOfFuel
                qtd_numeros foco top_freq top_atra g) as Hc.
  destruct (gerar_combinacao_proporcional qtd_numeros foco top_freq top_atra g)
    as [c g1 | e g1 |]; [|discriminate|congruence].
  destruct (true_div (conta_impares (sorted c)) qtd_numeros) as [e | f];
    [discriminate|]. cbn [lift ret].
  repeat match goal with |- context [if ?b then _ else _] => destruct b end;
    discriminate.
Qed.

(** An attempt raises only what the selection raises, or
    [ZeroDivisionError] in the window test when the count is zero. *)
Lemma tentativa_Err df qtd_numeros prop_impares foco top_freq top_atra g e g' :
  tentativa df qtd_numeros prop_impares foco top_freq top_atra g = Err e g' ->
  gerar_combinacao_proporcional qtd_numeros foco top_freq top_atra g = Err e g' \/
  (e = ZeroDivisionError /\ qtd_numeros = 0).
Proof.
  unfold tentativa, bind.
  destruct (gerar_combinacao_proporcional qtd_numeros foco top_freq top_atra g)
    as [c g1 | e1 g1 |]; [|intros [= <- <-]; now left|discriminate].
  unfold true_div. destruct (Z.eqb_spec qtd_numeros 0) as [-> | Hq].
  - cbn [lift raise]. intros [= <- <-]. now right.
  - cbn [lift ret].
    repeat match goal with |- context [if ?b then _ else _] => destruct b end;
      discriminate.
Qed.

(** The loop is still running after [fuel] turns exactly when all of them
    ended in [continue]. *)
Lemma gerar_aposta_loop_OutOfFuel df qtd_numeros prop_impares foco top_freq top_atra :
  forall fuel g,
  gerar_aposta_loop fuel df qtd_numeros prop_impares foco top_freq top_atra g = OutOfFuel <->
  exists gn,
    rejeitadas (tentativa df qtd_numeros prop_impares foco top_freq top_atra) fuel g = Some gn.
Proof.
  induction fuel as [|fuel IH]; intros g; cbn [rejeitadas gerar_aposta_loop].
  - split; eauto.
  - unfold bind.
    pose proof (tentativa_not_OutOfFuel df qtd_numeros prop_impares foco
                  top_freq top_atra g) as Hn.
    destruct (tentativa df qtd_numeros prop_impares foco top_freq top_atra g)
      as [[c|] g1 | e g1 |]; [| apply IH | |congruence];
      (split; [discriminate | now intros (gn & [=])]).
Qed.

(** Whatever ends the loop, a combination or an exception, is what one
    attempt gave after a number of rejected ones. *)
Lemma gerar_aposta_loop_fim df qtd_numeros prop_impares foco top_freq top_atra :
  forall fuel g,
  (forall comb g',
     gerar_aposta_loop fuel df qtd_numeros prop_impares foco top_freq top_atra g
     = Ok comb g' ->
     exists n gn,
       (n < fuel)%nat /\
       rejeitadas (tentativa df qtd_numeros prop_impares foco top_freq top_atra) n g
       = Some gn /\
       tentativa df qtd_numeros prop_impares foco top_freq top_atra gn
       = Ok (Some comb) g') /\
  (forall e g',
     gerar_aposta_loop fuel df qtd_numeros prop_impares foco top_freq top_atra g
     = Err e g' ->
     exists n gn,
       (n < fuel)%nat /\
       rejeitadas (tentativa df qtd_numeros prop_impares foco top_freq top_atra) n g
       = Some gn /\
       tentativa df qtd_numeros prop_impares foco top_freq top_atra gn = Err e g').
Proof.
  induction fuel as [|fuel IH]; intros g; cbn [gerar_aposta_loop].
  - split; discriminate.
  - unfold bind.
    destruct (tentativa df qtd_numeros prop_impares foco top_freq top_atra g)
      as [[c|] g1 | e1 g1 |] eqn:Ht.
    + split; [|discriminate]. intros comb g' [= <- <-].
      exists 0%nat, g. split; [lia|]. split; [reflexivity | assumption].
    + destruct (IH g1) as (IH1 & IH2). split.
      * intros comb g' H. destruct (IH1 comb g' H) as (n & gn & Hlt & Hr & Hn).
        exists (S n), gn. split; [lia|]. cbn [rejeitadas]. now rewrite Ht.
      * intros e g' H. destruct (IH2 e g' H) as (n & gn & Hlt & Hr & Hn).
        exists (S n), gn. split; [lia|]. cbn [rejeitadas]. now rewrite Ht.
    + split; [discriminate|]. intros e g' [= <- <-].
      exists 0%nat, g. split; [lia|]. split; [reflexivity | assumption].
    + split; discriminate.
Qed.

(** C1, as the program has it.  The loop of [gerar_aposta] has no attempt
    cap and no outcome for giving up.  It keeps no count of its attempts:
    after any number of rejected attempts it goes on as a call started in
    the generator state reached.  It is still running after [fuel]
    attempts exactly when all of them were rejected.  An exception it
    raises is raised inside an attempt, by the selection or, when the
    count is zero, by the division of the window test; a combination it
    returns is what the first attempt that was not rejected returned, and
    passed the window, the history and the run checks.  A result reached
    within some number of attempts is the result for any larger number. *)
Theorem gerar_aposta_sem_limite
    fuel df freq atraso qtd_numeros prop_impares foco g :
  (forall n gn k,
     rejeitadas (tentativa df qtd_numeros prop_impares foco
                   (top30 Z.geb freq) (top30 geb_nan atraso)) n g = Some gn ->
     gerar_aposta (n + k) df freq atraso qtd_numeros prop_impares foco g =
     gerar_aposta k df freq atraso qtd_numeros prop_impares foco gn) /\
  (gerar_aposta fuel df freq atraso qtd_numeros prop_impares foco g = OutOfFuel <->
   exists gn,
     rejeitadas (tentativa df qtd_numeros prop_impares foco
                   (top30 Z.geb freq) (top30 geb_nan atraso)) fuel g = Some gn) /\
  (forall e g',
     gerar_aposta fuel df freq atraso qtd_numeros prop_impares foco g = Err e g' ->
     exists n gn,
       (n < fuel)%nat /\
       rejeitadas (tentativa df qtd_numeros prop_impares foco
                     (top30 Z.geb freq) (top30 geb_nan atraso)) n g = Some gn /\
       tentativa df qtd_numeros prop_impares foco
         (top30 Z.geb freq) (top30 geb_nan atraso) gn = Err e g' /\
       (gerar_combinacao_proporcional qtd_numeros foco
          (top30 Z.geb freq) (top30 geb_nan atraso) gn = Err e g' \/
        (e = ZeroDivisionError /\ qtd_numeros = 0))) /\
  (forall comb g',
     gerar_aposta fuel df freq atraso qtd_numeros prop_impares foco g = Ok comb g' ->
     exists n gn,
       (n < fuel)%nat /\
       rejeitadas (tentativa df qtd_numeros prop_impares foco
                     (top30 Z.geb freq) (top30 geb_nan atraso)) n g = Some gn /\
       tentativa df qtd_numeros prop_impares foco
         (top30 Z.geb freq) (top30 geb_nan atraso) gn = Ok (Some comb) g' /\
       aprovada df qtd_numeros prop_impares comb) /\
  (forall o extra,
     gerar_aposta fuel df freq atraso qtd_numeros prop_impares foco g = o ->
     o <> OutOfFuel ->
     gerar_aposta (fuel + extra) df freq atraso qtd_numeros prop_impares foco g = o).
Proof.
  unfold gerar_aposta.
  destruct (gerar_aposta_loop_fim df qtd_numeros prop_impares foco
              (top30 Z.geb freq) (top30 geb_nan atraso) fuel g) as (Hok & Herr).
  split; [|split; [|split; [|split]]].
  - intros n gn k. apply gerar_aposta_loop_rejeitadas.
  - apply gerar_aposta_loop_OutOfFuel.
  - intros e g' H. destruct (Herr e g' H) as (n & gn & Hlt & Hr & Ht).
    exists n, gn. repeat (split; [assumption|]). now apply tentativa_Err in Ht.
  - intros comb g' H. destruct (Hok comb g' H) as (n & gn & Hlt & Hr & Ht).
    exists n, gn. repeat (split; [assumption|]). now apply tentativa_Some in Ht.
  - intros o extra. apply gerar_aposta_loop_mais_fuel.
Qed.

Lemma gerar_aposta_sem_limite_witness :
  gerar_aposta (3 + 5) historico_exemplo
    (calcular_frequencia_numeros historico_exemplo)
    (calcular_atraso_numeros historico_exemplo)
    6 (proporcao_impares_pares historico_exemplo) "equilibrado" fluxo_exemplo
  = gerar_aposta 3 historico_exemplo
      (calcular_frequencia_numeros historico_exemplo)
      (calcular_atraso_numeros historico_exemplo)
      6 (proporcao_impares_pares historico_exemplo) "equilibrado" fluxo_exemplo /\
  (forall comb g',
     gerar_aposta 3 historico_exemplo
       (calcular_frequencia_numeros historico_exemplo)
       (calcular_atraso_numeros historico_exemplo)
       6 (proporcao_impares_pares historico_exemplo) "equilibrado" fluxo_exemplo
     = Ok comb g' ->
     aprovada historico_exemplo 6 (proporcao_impares_pares historico_exemplo) comb).
Proof.
  destruct (gerar_aposta_sem_limite 3 historico_exemplo
              (calcular_frequencia_numeros historico_exemplo)
              (calcular_atraso_numeros historico_exemplo)
              6 (proporcao_impares_pares historico_exemplo) "equilibrado" fluxo_exemplo)
    as (_ & _ & _ & Hok & Hmais).
  split.
  - apply Hmais; [reflexivity | vm_compute; discriminate].
  - intros comb g' H. destruct (Hok comb g' H) as (n & gn & _ & _ & _ & Hap).
    exact Hap.
Defined.

(** On the sample history the first two attempts are rejected and the
    third returns: the premises of the statement above are met. *)
Example rejeitadas_exemplo :
  match rejeitadas (tentativa historico_exemplo 6
                      (proporcao_impares_pares historico_exemplo) "equilibrado"
                      (top30 Z.geb (calcular_frequencia_numeros historico_exemplo))
                      (top30 geb_nan (calcular_atraso_numeros historico_exemplo)))
          2 fluxo_exemplo with
  | Some gn =>
      resultado
        (tentativa historico_exemplo 6
           (proporcao_impares_pares historico_exemplo) "equilibrado"
           (top30 Z.geb (calcular_frequencia_numeros historico_exemplo))
           (top30 geb_nan (calcular_atraso_numeros historico_exemplo)) gn)
  | None => None
  end = Some (inr (Some aposta_exemplo)).
Proof. vm_compute. reflexivity. Qed.

(** ** The focus test has a plain [else] branch *)

Lemma n_freq_n_atra_outro_foco qtd_numeros foco :
  foco <> "frequentes" -> foco <> "atrasados" ->
  n_freq_n_atra qtd_numeros foco = n_freq_n_atra qtd_numeros "equilibrado".
Proof.
  intros H1 H2. unfold n_freq_n_atra.
  apply String.eqb_neq in H1, H2. rewrite H1, H2. reflexivity.
Qed.

Lemma tentativa_outro_foco df qtd_numeros prop_impares foco top_freq top_atra g :
  foco <> "frequentes" -> foco <> "atrasados" ->
  tentativa df qtd_numeros prop_impares foco top_freq top_atra g =
  tentativa df qtd_numeros prop_impares "equilibrado" top_freq top_atra g.
Proof.
  intros H1 H2. unfold tentativa, gerar_combinacao_proporcional.
  now rewrite (n_freq_n_atra_outro_foco _ _ H1 H2).
Qed.

Lemma gerar_aposta_loop_outro_foco df qtd_numeros prop_impares foco top_freq top_atra :
  foco <> "frequentes" -> foco <> "atrasados" ->
  forall fuel g,
  gerar_aposta_loop fuel df qtd_numeros prop_impares foco top_freq top_atra g =
  gerar_aposta_loop fuel df qtd_numeros prop_impares "equilibrado" top_freq top_atra g.
Proof.
  intros H1 H2. induction fuel as [|fuel IH]; intros g; [reflexivity|].
  cbn [gerar_aposta_loop]. unfold bind.
  rewrite (tentativa_outro_foco _ _ _ _ _ _ _ H1 H2).
  destruct (tentativa df qtd_numeros prop_impares "equilibrado" top_freq top_atra g)
    as [[c|] g1 | e g1 |]; auto.
Qed.

(** What becomes of counts that cannot be generated: zero divides by zero
    in the window test, a negative count is refused by [random.sample],
    and a count beyond the floats overflows the quota. *)
Example gerar_aposta_contagens_invalidas :
  map (fun n => resultado
                  (gerar_aposta 1 historico_exemplo
                     (calcular_frequencia_numeros historico_exemplo)
                     (calcular_atraso_numeros historico_exemplo)
                     n (proporcao_impares_pares historico_exemplo) "equilibrado"
                     fluxo_exemplo))
      [0; -1; 2 ^ 1030]
  = [Some (inl ZeroDivisionError); Some (inl ValueError); Some (inl OverflowError)].
Proof. vm_compute. reflexivity. Qed.

(** * Further properties of the program *)

(** ** The frequency table *)

(** Counting, for each number of a duplicate-free list, its occurrences
    in [l] counts the cells of [l] that are in the list. *)
Lemma soma_ocorrencias (dom l : list Z) :
  NoDup dom ->
  foldr Z.add 0 (map (fun n => Z.of_nat (length (filter (fun x => x = n) l))) dom)
  = Z.of_nat (length (filter (fun x => x ∈ dom) l)).
Proof.
  induction 1 as [|d dom Hd Hnd IH].
  - simpl. induction l as [|x l IHl]; [reflexivity|].
    rewrite filter_cons. case_decide as Hx; [now apply not_elem_of_nil in Hx | exact IHl].
  - cbn [map foldr]. rewrite IH. clear IH.
    induction l as [|x l IHl]; [reflexivity|].
    rewrite !filter_cons.
    destruct (decide (x = d)) as [-> | Hne].
    + rewrite (decide_True (P := d ∈ d :: dom)) by now left.
      rewrite (decide_False (P := d ∈ dom)) by assumption.
      cbn [length]. lia.
    + destruct (decide (x ∈ dom)) as [Hin | Hin].
      * rewrite (decide_True (P := x ∈ d :: dom)) by now right.
        cbn [length]. lia.
      * rewrite (decide_False (P := x ∈ d :: dom)); [lia|].
        intros [? | ?]%elem_of_cons; congruence.
Qed.

Lemma soma_calcular_frequencia_numeros df :
  soma_serie (calcular_frequencia_numeros df)
  = Z.of_nat (length (filter (fun x => x ∈ faixa) (numeros_sorteados df))).
Proof.
  unfold soma_serie, calcular_frequencia_numeros, numeros_sorteados.
  rewrite map_map. exact (soma_ocorrencias faixa _ NoDup_faixa).
Qed.

Lemma list_filter_all (P : Z -> Prop) `{forall x, Decision (P x)} (l : list Z) :
  Forall P l -> filter P l = l.
Proof.
  induction 1 as [|x l Hx Hl IH]; [reflexivity|].
  rewrite filter_cons, decide_True by assumption. now rewrite IH.
Qed.

Lemma length_numeros_sorteados df :
  (forall r, r ∈ df -> length (BOLAS r) = 6%nat) ->
  length (numeros_sorteados df) = (6 * length df)%nat.
Proof.
  unfold numeros_sorteados. induction df as [|r df IH]; intros H; [reflexivity|].
  simpl. rewrite length_app, (H r) by now left.
  rewrite IH; [lia|]. intros r' Hr'. apply H. now right.
Qed.

(** X2.  For a history of draws of six numbers of 1..60 each, the
    frequencies add up to six times the number of draws. *)
Theorem soma_frequencias (df : DataFrame) :
  (forall r, r ∈ df ->
     length (BOLAS r) = 6%nat /\ Forall (fun x => 1 <= x <= 60) (BOLAS r)) ->
  soma_serie (calcular_frequencia_numeros df) = 6 * Z.of_nat (length df).
Proof.
  intros H. rewrite soma_calcular_frequencia_numeros.
  assert (Hall : Forall (fun x => x ∈ faixa) (numeros_sorteados df)).
  { unfold numeros_sorteados. apply Forall_concat, Forall_forall.
    intros b Hb. apply list_elem_of_In, in_map_iff in Hb as (r & <- & Hr).
    apply list_elem_of_In, H in Hr as (_ & Hr).
    eapply Forall_impl; [exact Hr|]. intros x Hx. now apply elem_of_faixa. }
  rewrite (list_filter_all _ _ Hall).
  rewrite length_numeros_sorteados; [lia|]. intros r Hr. now apply H.
Qed.

Lemma historico_exemplo_valido r :
  r ∈ historico_exemplo ->
  length (BOLAS r) = 6%nat /\ Forall (fun x => 1 <= x <= 60) (BOLAS r).
Proof.
  unfold historico_exemplo. intros Hr.
  repeat (apply elem_of_cons in Hr as [-> | Hr];
          [split; [reflexivity | repeat constructor; lia]|]).
  now apply not_elem_of_nil in Hr.
Qed.

Lemma soma_frequencias_witness :
  soma_serie (calcular_frequencia_numeros historico_exemplo) = 6 * 4.
Proof. apply (soma_frequencias historico_exemplo). exact historico_exemplo_valido. Defined.

(** ** Statistics that do not depend on the order of the rows *)

Lemma numeros_sorteados_perm df df' :
  df ≡ₚ df' -> numeros_sorteados df ≡ₚ numeros_sorteados df'.
Proof.
  unfold numeros_sorteados. induction 1 as [|r l l' _ IH|r1 r2 l|l1 l2 l3 _ IH1 _ IH2];
    simpl.
  - reflexivity.
  - now rewrite IH.
  - rewrite !app_assoc. f_equiv. apply Permutation_app_comm.
  - now rewrite IH1.
Qed.

Lemma total_impares_foldl (df : DataFrame) : forall t,
  foldl (fun t r => t + conta_impares (BOLAS r)) t df
  = t + conta_impares (numeros_sorteados df).
Proof.
  unfold numeros_sorteados, conta_impares.
  induction df as [|r df IH]; intros t; simpl; [lia|].
  rewrite IH, filter_app, length_app. lia.
Qed.

(** The ratio is taken over all the drawn numbers together, not as a mean
    of the ratios of the draws. *)
Lemma proporcao_impares_pares_conjunta df :
  proporcao_impares_pares df =
  if Z.of_nat (length (numeros_sorteados df)) =? 0 then 0%float
  else (float_of_int (conta_impares (numeros_sorteados df))
        / float_of_int (Z.of_nat (length (numeros_sorteados df))))%float.
Proof.
  unfold proporcao_impares_pares. rewrite total_impares_foldl. reflexivity.
Qed.

(** X3.  The frequency table and the historical odd ratio depend only on
    which draws the history holds, not on the order of its rows. *)
Theorem estatisticas_sem_ordem (df df' : DataFrame) :
  df ≡ₚ df' ->
  calcular_frequencia_numeros df = calcular_frequencia_numeros df' /\
  proporcao_impares_pares df = proporcao_impares_pares df'.
Proof.
  intros Hp. apply numeros_sorteados_perm in Hp. split.
  - unfold calcular_frequencia_numeros. fold (numeros_sorteados df).
    fold (numeros_sorteados df'). apply map_ext. intros n. now rewrite Hp.
  - rewrite !proporcao_impares_pares_conjunta.
    assert (E1 : length (numeros_sorteados df) = length (numeros_sorteados df'))
      by now apply Permutation_length.
    assert (E2 : conta_impares (numeros_sorteados df)
                 = conta_impares (numeros_sorteados df'))
      by (unfold conta_impares; now rewrite Hp).
    now rewrite E1, E2.
Qed.

Lemma estatisticas_sem_ordem_witness :
  calcular_frequencia_numeros historico_exemplo
  = calcular_frequencia_numeros (reverse historico_exemplo) /\
  proporcao_impares_pares historico_exemplo
  = proporcao_impares_pares (reverse historico_exemplo).
Proof.
  apply (estatisticas_sem_ordem historico_exemplo (reverse historico_exemplo)).
  symmetry. apply reverse_Permutation.
Defined.

(** ** The staleness table: edges *)

Lemma Series_get_calcular_atraso_numeros df n :
  1 <= n <= 60 ->
  Series_get (calcular_atraso_numeros df) n =
  Some (if default (-1) (ultima_aparicao n df) =? -1
        then Series_max (map CONCURSO df)
        else (fun u => wrap_int64 (u - default (-1) (ultima_aparicao n df)))
               <$> Series_max (map CONCURSO df)).
Proof.
  intros Hn. unfold Series_get, calcular_atraso_numeros.
  rewrite (lookup_tabela_faixa _ n) by exact Hn.
  now rewrite ultimo_concurso_num_lookup by exact Hn.
Qed.

(** X4.  The staleness of a number of 1..60 is NaN exactly when the
    history is empty (the greatest contest number of an empty column is
    NaN, and it goes into every entry). *)
Theorem calcular_atraso_numeros_nan (df : DataFrame) (n : Z) :
  1 <= n <= 60 ->
  Series_get (calcular_atraso_numeros df) n = Some None <-> df = [].
Proof.
  intros Hn. rewrite Series_get_calcular_atraso_numeros by exact Hn.
  destruct df as [|r df].
  - simpl. split; reflexivity.
  - destruct (Series_max_spec (map CONCURSO (r :: df))) as (u & -> & _);
      [discriminate|].
    split; [|discriminate].
    destruct (default (-1) (ultima_aparicao n (r :: df)) =? -1); discriminate.
Qed.

Lemma calcular_atraso_numeros_nan_witness :
  Series_get (calcular_atraso_numeros []) 7 = Some None <-> @nil sorteio = [].
Proof. apply (calcular_atraso_numeros_nan [] 7). lia. Defined.

(** X5.  For a history that is not empty and has positive contest
    numbers, the staleness of every number of 1..60 is an integer between
    zero and the greatest contest number, and it is zero exactly when the
    most recent draw holding the number carries that greatest contest
    number. *)
Theorem calcular_atraso_numeros_limites (df : DataFrame) (n : Z) :
  df <> [] ->
  (forall r, r ∈ df -> 0 < CONCURSO r) ->
  1 <= n <= 60 ->
  exists ultimo_concurso atraso,
    Series_max (map CONCURSO df) = Some ultimo_concurso /\
    Series_get (calcular_atraso_numeros df) n = Some (Some atraso) /\
    0 <= atraso <= ultimo_concurso /\
    (atraso = 0 <-> ultima_aparicao n df = Some ultimo_concurso).
Proof.
  intros Hne Hpos Hn.
  destruct (Series_max_spec (map CONCURSO df)) as (u & Hu & Hin & Hmax).
  { destruct df; [congruence | discriminate]. }
  assert (Hupos : 0 < u).
  { apply list_elem_of_In, in_map_iff in Hin as (r & <- & Hr).
    now apply Hpos, list_elem_of_In. }
  rewrite Series_get_calcular_atraso_numeros by exact Hn. rewrite Hu.
  destruct (ultima_aparicao n df) as [c|] eqn:Hc; simpl.
  - apply ultima_aparicao_Some in Hc as (r & Hr & _ & <-).
    pose proof (Hpos r Hr) as Hrpos.
    assert (Hle : CONCURSO r <= u)
      by (apply Hmax, list_elem_of_In, in_map; now apply list_elem_of_In).
    destruct (Z.eqb_spec (CONCURSO r) (-1)); [lia|].
    assert (Hmaxu : u <= int64_max).
    { apply list_elem_of_In, in_map_iff in Hin as (ru & <- & _).
      apply CONCURSO_faixa. }
    rewrite wrap_int64_id by (unfold int64_min; lia).
    exists u, (u - CONCURSO r). repeat split; try lia.
    + intros H. f_equal. lia.
    + intros [= H]. lia.
  - exists u, u. repeat split; try lia. discriminate.
Qed.

Lemma historico_exemplo_positivo r : r ∈ historico_exemplo -> 0 < CONCURSO r.
Proof.
  unfold historico_exemplo. intros Hr.
  repeat (apply elem_of_cons in Hr as [-> | Hr]; [simpl; lia|]).
  now apply not_elem_of_nil in Hr.
Qed.

Lemma calcular_atraso_numeros_limites_witness :
  exists ultimo_concurso atraso,
    Series_max (map CONCURSO historico_exemplo) = Some ultimo_concurso /\
    Series_get (calcular_atraso_numeros historico_exemplo) 59 = Some (Some atraso) /\
    0 <= atraso <= ultimo_concurso /\
    (atraso = 0 <-> ultima_aparicao 59 historico_exemplo = Some ultimo_concurso).
Proof.
  apply (calcular_atraso_numeros_limites historico_exemplo 59).
  - discriminate.
  - exact historico_exemplo_positivo.
  - lia.
Defined.

Lemma ultima_aparicao_app n df r :
  n ∈ BOLAS r -> ultima_aparicao n (df ++ [r]) = Some (CONCURSO r).
Proof.
  intros Hn. induction df as [|r0 df IH]; simpl.
  - now rewrite bool_decide_eq_true_2.
  - now rewrite IH.
Qed.

Lemma Series_max_crescentes df r :
  concursos_crescentes (df ++ [r]) ->
  Series_max (map CONCURSO (df ++ [r])) = Some (CONCURSO r).
Proof.
  intros Hs.
  destruct (Series_max_spec (map CONCURSO (df ++ [r]))) as (u & Hu & Hin & Hmax).
  { destruct df; discriminate. }
  rewrite Hu. f_equal.
  assert (Hle : CONCURSO r <= u).
  { apply Hmax, list_elem_of_In, in_map, in_or_app. right. now left. }
  apply list_elem_of_In, in_map_iff in Hin as (r' & <- & Hr').
  apply in_app_or in Hr' as [Hr' | [<- | []]]; [|reflexivity].
  pose proof (StronglySorted_app_1_elem_of _ _ _ r' r Hs) as Hlt.
  specialize (Hlt ltac:(now apply list_elem_of_In) ltac:(now left)). simpl in Hlt. lia.
Qed.

(** X6.  In a history in ascending order of contest number whose last
    contest is not numbered -1, every number of 1..60 drawn in the last
    draw has staleness zero. *)
Theorem calcular_atraso_numeros_ultimo_sorteio (df : DataFrame) (r : sorteio) (n : Z) :
  concursos_crescentes (df ++ [r]) ->
  CONCURSO r <> -1 ->
  n ∈ BOLAS r ->
  1 <= n <= 60 ->
  Series_get (calcular_atraso_numeros (df ++ [r])) n = Some (Some 0).
Proof.
  intros Hs Hc Hin Hn.
  rewrite Series_get_calcular_atraso_numeros by exact Hn.
  rewrite ultima_aparicao_app by exact Hin.
  rewrite Series_max_crescentes by exact Hs. simpl.
  destruct (Z.eqb_spec (CONCURSO r) (-1)); [contradiction|].
  now rewrite Z.sub_diag.
Qed.

Lemma historico_exemplo_crescente : concursos_crescentes historico_exemplo.
Proof.
  unfold concursos_crescentes, historico_exemplo.
  repeat (constructor; [|repeat constructor; simpl; lia]). constructor.
Qed.

Lemma calcular_atraso_numeros_ultimo_sorteio_witness :
  Series_get (calcular_atraso_numeros historico_exemplo) 42 = Some (Some 0).
Proof.
  apply (calcular_atraso_numeros_ultimo_sorteio
           [ {| CONCURSO := 1; BOLAS := [4; 5; 30; 33; 41; 52]; CONCURSO_int64 := I |};
             {| CONCURSO := 2; BOLAS := [9; 37; 39; 41; 43; 49]; CONCURSO_int64 := I |};
             {| CONCURSO := 3; BOLAS := [10; 11; 29; 30; 36; 47]; CONCURSO_int64 := I |} ]
           {| CONCURSO := 4; BOLAS := [1; 5; 6; 27; 42; 59]; CONCURSO_int64 := I |} 42).
  - exact historico_exemplo_crescente.
  - discriminate.
  - simpl. set_solver.
  - lia.
Defined.

(** X7.  The program marks "never drawn" by the contest number -1: a
    number of 1..60 whose most recent draw carries the contest number -1
    gets the staleness of a number that was never drawn, the greatest
    contest number. *)
Theorem calcular_atraso_numeros_marca (df : DataFrame) (n : Z) :
  1 <= n <= 60 ->
  ultima_aparicao n df = Some (-1) ->
  Series_get (calcular_atraso_numeros df) n = Some (Series_max (map CONCURSO df)).
Proof.
  intros Hn Hc. rewrite Series_get_calcular_atraso_numeros by exact Hn.
  now rewrite Hc.
Qed.

Lemma calcular_atraso_numeros_marca_witness :
  Series_get (calcular_atraso_numeros
                [ {| CONCURSO := -1; BOLAS := [1; 2; 3; 4; 5; 6]; CONCURSO_int64 := I |};
                  {| CONCURSO := 8; BOLAS := [10; 20; 30; 40; 50; 60]; CONCURSO_int64 := I |} ]) 3
  = Some (Series_max (map CONCURSO
                [ {| CONCURSO := -1; BOLAS := [1; 2; 3; 4; 5; 6]; CONCURSO_int64 := I |};
                  {| CONCURSO := 8; BOLAS := [10; 20; 30; 40; 50; 60]; CONCURSO_int64 := I |} ])).
Proof.
  apply (calcular_atraso_numeros_marca
           [ {| CONCURSO := -1; BOLAS := [1; 2; 3; 4; 5; 6]; CONCURSO_int64 := I |};
             {| CONCURSO := 8; BOLAS := [10; 20; 30; 40; 50; 60]; CONCURSO_int64 := I |} ] 3).
  - lia.
  - reflexivity.
Defined.

(** ** The checks do not depend on order or repetition *)

(** X8.  The history check looks only at the set of the combination and
    at which draws the history holds: two combinations with the same
    elements (in any order, with any repetition) get the same answer, on
    any reordering of the history. *)
Theorem ja_saiu_no_historico_conjunto (c c' : list Z) (df df' : DataFrame) :
  (forall x, x ∈ c <-> x ∈ c') ->
  df ≡ₚ df' ->
  ja_saiu_no_historico c df = ja_saiu_no_historico c' df'.
Proof.
  intros Hc Hdf. apply eq_true_iff_eq.
  rewrite !ja_saiu_no_historico_spec.
  assert (E : forall b, mesmo_conjunto c b <-> mesmo_conjunto c' b).
  { intros b. rewrite !mesmo_conjunto_elem. split; intros H x.
    - now rewrite <- Hc.
    - now rewrite Hc. }
  split; intros (r & Hr & Hs); exists r.
  - rewrite <- Hdf, <- E. auto.
  - rewrite Hdf, E. auto.
Qed.

Lemma ja_saiu_no_historico_conjunto_witness :
  ja_saiu_no_historico [52; 4; 4; 41; 33; 30; 5] historico_exemplo
  = ja_saiu_no_historico [4; 5; 30; 33; 41; 52] (reverse historico_exemplo).
Proof.
  apply (ja_saiu_no_historico_conjunto [52; 4; 4; 41; 33; 30; 5] [4; 5; 30; 33; 41; 52]
           historico_exemplo (reverse historico_exemplo)).
  - intros x. set_solver.
  - symmetry. apply reverse_Permutation.
Defined.

Lemma size_list_to_set_le (l : list Z) :
  (size (list_to_set l : gset Z) <= length l)%nat.
Proof.
  induction l as [|x l IH].
  - rewrite list_to_set_nil, size_empty. simpl. lia.
  - rewrite list_to_set_cons. simpl length.
    pose proof (size_union_alt {[x]} (list_to_set l : gset Z)) as E.
    rewrite size_singleton in E.
    assert (size (list_to_set l ∖ {[x]} : gset Z) <= size (list_to_set l : gset Z))%nat
      by (apply subseteq_size; set_solver).
    lia.
Qed.

(** X9.  A combination of distinct numbers that is longer than every draw
    of the history is never found in the history: against draws of six
    numbers the history check rejects nothing when more than six numbers
    are asked for. *)
Theorem ja_saiu_no_historico_maior (c : list Z) (df : DataFrame) :
  NoDup c ->
  (forall r, r ∈ df -> (length (BOLAS r) < length c)%nat) ->
  ja_saiu_no_historico c df = false.
Proof.
  intros Hnd Hlen. apply not_true_is_false. intros H.
  apply ja_saiu_no_historico_spec in H as (r & Hr & Hs).
  specialize (Hlen r Hr). unfold mesmo_conjunto in Hs.
  assert (Hsize : size (list_to_set c : gset Z) = length c)
    by now apply size_list_to_set.
  pose proof (size_list_to_set_le (BOLAS r)) as Hle.
  rewrite Hs in Hsize. lia.
Qed.

Lemma ja_saiu_no_historico_maior_witness :
  ja_saiu_no_historico [4; 5; 30; 33; 41; 52; 60] historico_exemplo = false.
Proof.
  apply (ja_saiu_no_historico_maior [4; 5; 30; 33; 41; 52; 60] historico_exemplo).
  - apply (bool_decide_unpack _). vm_compute. exact I.
  - intros r Hr. rewrite (proj1 (historico_exemplo_valido r Hr)). simpl. lia.
Defined.

Lemma sorted_Permutation c c' : c ≡ₚ c' -> sorted c = sorted c'.
Proof.
  intros Hp. apply (Sorted_unique Z.le); try apply sorted_Sorted.
  now rewrite !sorted_perm.
Qed.

(** X10.  The run check does not depend on the order in which the
    combination is given. *)
Theorem tem_mais_de_3_consecutivos_perm (c c' : list Z) :
  c ≡ₚ c' -> tem_mais_de_3_consecutivos c = tem_mais_de_3_consecutivos c'.
Proof.
  intros Hp. unfold tem_mais_de_3_consecutivos.
  now rewrite (sorted_Permutation c c' Hp).
Qed.

Lemma tem_mais_de_3_consecutivos_perm_witness :
  tem_mais_de_3_consecutivos [7; 5; 8; 6; 20] = tem_mais_de_3_consecutivos [20; 6; 8; 5; 7].
Proof.
  apply (tem_mais_de_3_consecutivos_perm [7; 5; 8; 6; 20] (reverse [7; 5; 8; 6; 20])).
  symmetry. apply reverse_Permutation.
Defined.

(** X11.  A combination of fewer than four numbers never has a run. *)
Theorem tem_mais_de_3_consecutivos_curta (c : list Z) :
  (length c < 4)%nat -> tem_mais_de_3_consecutivos c = false.
Proof.
  intros Hlen. apply not_true_is_false. intros H.
  apply tem_mais_de_3_consecutivos_sequencia in H as (l1 & l2 & y & E).
  apply (f_equal length) in E.
  rewrite (Permutation_length (sorted_perm c)), !length_app in E. simpl in E. lia.
Qed.

Lemma tem_mais_de_3_consecutivos_curta_witness :
  tem_mais_de_3_consecutivos [31; 30; 29] = false.
Proof. apply (tem_mais_de_3_consecutivos_curta [31; 30; 29]). simpl. lia. Defined.

(** ** The proportional selection: quotas and edges *)

Lemma n_freq_n_atra_soma qtd_numeros foco n_freq n_atra :
  n_freq_n_atra qtd_numeros foco = inr (n_freq, n_atra) ->
  n_freq + n_atra = qtd_numeros.
Proof.
  unfold n_freq_n_atra.
  destruct (String.eqb foco "frequentes"); [|destruct (String.eqb foco "atrasados")];
    match goal with |- context [math.ceil ?x] => destruct (math.ceil x) end;
    intros [= <- <-]; lia.
Qed.

Lemma ceil_erro x e :
  math.ceil x = inl e -> e = ValueError \/ e = OverflowError.
Proof.
  unfold math.ceil. destruct (Prim2SF x); intros [= <-]; auto.
Qed.

Lemma n_freq_n_atra_erro qtd_numeros foco e :
  n_freq_n_atra qtd_numeros foco = inl e -> e = ValueError \/ e = OverflowError.
Proof.
  unfold n_freq_n_atra.
  destruct (String.eqb foco "frequentes"); [|destruct (String.eqb foco "atrasados")];
    match goal with |- context [math.ceil ?x] => destruct (math.ceil x) eqn:E end;
    intros [= <-]; eapply ceil_erro; eassumption.
Qed.

Lemma escolhidos_negativo top n g :
  n < 0 -> escolhidos top n g = Err ValueError g.
Proof.
  intros Hn. unfold escolhidos, random.sample.
  destruct (Z.ltb_spec (Z.of_nat (length top)) n); [lia|].
  destruct (Z.ltb_spec n 0); [reflexivity | lia].
Qed.

Lemma gerar_combinacao_proporcional_negativa qtd_numeros foco top_freq top_atra g :
  qtd_numeros < 0 ->
  exists e g',
    gerar_combinacao_proporcional qtd_numeros foco top_freq top_atra g = Err e g' /\
    (e = ValueError \/ e = OverflowError).
Proof.
  intros Hq. unfold gerar_combinacao_proporcional.
  destruct (n_freq_n_atra qtd_numeros foco) as [e | [nf na]] eqn:Hn.
  - exists e, g. split; [reflexivity|]. eapply n_freq_n_atra_erro; eassumption.
  - apply n_freq_n_atra_soma in Hn. exists ValueError. unfold lift, bind, ret.
    cbn [fst snd].
    destruct (Z.ltb_spec nf 0) as [Hnf | Hnf].
    + rewrite escolhidos_negativo by assumption. eauto.
    + destruct (escolhidos_returns top_freq nf g Hnf) as (ef & g1 & ->).
      rewrite escolhidos_negativo by lia. eauto.
Qed.

(** X12.  A negative count is never generated: [gerar_combinacao_proporcional]
    raises, a [ValueError] (from [random.sample], asked for a negative
    number of items) or an [OverflowError] (from [math.ceil]), before it
    returns anything; and so does [gerar_aposta] in its first attempt. *)
Theorem contagem_negativa
    (fuel : nat) df freq atraso qtd_numeros prop_impares foco top_freq top_atra g :
  qtd_numeros < 0 ->
  (exists e g',
     gerar_combinacao_proporcional qtd_numeros foco top_freq top_atra g = Err e g' /\
     (e = ValueError \/ e = OverflowError)) /\
  (exists e g',
     gerar_aposta (S fuel) df freq atraso qtd_numeros prop_impares foco g = Err e g' /\
     (e = ValueError \/ e = OverflowError)).
Proof.
  intros Hq.
  pose proof (fun tf ta =>
                gerar_combinacao_proporcional_negativa qtd_numeros foco tf ta g Hq) as H.
  split; [apply H|].
  destruct (H (top30 Z.geb freq) (top30 geb_nan atraso)) as (e & g' & E & He).
  exists e, g'. split; [|assumption].
  unfold gerar_aposta. cbn [gerar_aposta_loop]. unfold tentativa, bind.
  now rewrite E.
Qed.

Lemma contagem_negativa_witness :
  (exists e g',
     gerar_combinacao_proporcional (-4) "atrasados" [1; 2; 3] [4; 5; 6] fluxo_exemplo
     = Err e g' /\ (e = ValueError \/ e = OverflowError)) /\
  (exists e g',
     gerar_aposta 1 historico_exemplo
       (calcular_frequencia_numeros historico_exemplo)
       (calcular_atraso_numeros historico_exemplo)
       (-4) (proporcao_impares_pares historico_exemplo) "atrasados" fluxo_exemplo
     = Err e g' /\ (e = ValueError \/ e = OverflowError)).
Proof.
  apply (contagem_negativa 0 historico_exemplo
           (calcular_frequencia_numeros historico_exemplo)
           (calcular_atraso_numeros historico_exemplo)
           (-4) (proporcao_impares_pares historico_exemplo) "atrasados"
           [1; 2; 3] [4; 5; 6] fluxo_exemplo).
  lia.
Defined.

Lemma n_freq_n_atra_zero foco : n_freq_n_atra 0 foco = inr (0, 0).
Proof.
  unfold n_freq_n_atra.
  destruct (String.eqb foco "frequentes"); [|destruct (String.eqb foco "atrasados")];
    reflexivity.
Qed.

Lemma escolhidos_zero top g : escolhidos top 0 g = Ok [] g.
Proof.
  unfold escolhidos, random.sample.
  destruct (Z.ltb_spec (Z.of_nat (length top)) 0); [lia|]. reflexivity.
Qed.

Lemma gerar_combinacao_proporcional_zero foco top_freq top_atra g :
  gerar_combinacao_proporcional 0 foco top_freq top_atra g = Ok [] g.
Proof.
  rewrite (gerar_combinacao_proporcional_cotas 0 foco top_freq top_atra 0 0 g
             (n_freq_n_atra_zero foco)).
  unfold bind. rewrite !escolhidos_zero. reflexivity.
Qed.

(** X13.  A count of zero is not rejected either: the selection returns
    the empty list without drawing any random number, and the window test
    of [gerar_aposta] then divides by zero, so that its first attempt
    raises [ZeroDivisionError], whatever the history, the tables and the
    focus. *)
Theorem contagem_zero (fuel : nat) df freq atraso prop_impares foco top_freq top_atra g :
  gerar_combinacao_proporcional 0 foco top_freq top_atra g = Ok [] g /\
  gerar_aposta (S fuel) df freq atraso 0 prop_impares foco g = Err ZeroDivisionError g.
Proof.
  pose proof (fun tf ta => gerar_combinacao_proporcional_zero foco tf ta g) as H.
  split; [apply H|].
  unfold gerar_aposta. cbn [gerar_aposta_loop]. unfold tentativa, bind.
  rewrite H. reflexivity.
Qed.

(** What the selection returns, with the set it was listed from. *)
Lemma gerar_combinacao_proporcional_conjunto
    qtd_numeros foco top_freq top_atra g l g' :
  gerar_combinacao_proporcional qtd_numeros foco top_freq top_atra g = Ok l g' ->
  exists (ef ea : list Z) (s : gset Z),
    (forall x, x ∈ ef -> x ∈ top_freq) /\
    (forall x, x ∈ ea -> x ∈ top_atra) /\
    list_to_set (ef ++ ea) ⊆ s /\
    s ⊆ list_to_set (ef ++ ea) ∪ universo /\
    (qtd_numeros <= Z.of_nat (size s) \/ universo ⊆ s) /\
    (Z.of_nat (size (list_to_set (ef ++ ea) : gset Z)) >= qtd_numeros ->
     s = list_to_set (ef ++ ea)) /\
    (qtd_numeros >= Z.of_nat (size s) -> l ≡ₚ elements s).
Proof.
  unfold gerar_combinacao_proporcional. intros H.
  apply bind_Ok in H as (n & g1 & _ & H).
  apply bind_Ok in H as (ef & g2 & Hef & H).
  apply bind_Ok in H as (ea & g3 & Hea & H).
  apply bind_Ok in H as (s' & g4 & Hs' & H).
  apply bind_Ok in H as (cl & g5 & Hcl & H).
  destruct (shuffle_Ok cl g5) as (l0 & g6 & Hsh & Hperm).
  rewrite Hsh in H. injection H as -> ->.
  destruct (preencher_Ok fuel_preencher qtd_numeros
              (list_to_set (ef ++ ea)) g3 (fuel_preencher_enough _))
    as (s1 & g7 & E & Hsub1 & Hsub2 & Hsize).
  rewrite E in Hs'. injection Hs' as -> ->.
  exists ef, ea, s'.
  split; [eapply escolhidos_Ok; eauto|]. split; [eapply escolhidos_Ok; eauto|].
  split; [assumption|]. split; [assumption|]. split; [assumption|]. split.
  - intros Hge. unfold fuel_preencher in E. cbn [preencher] in E.
    destruct (Z.ltb_spec (Z.of_nat (size (list_to_set (ef ++ ea) : gset Z))) qtd_numeros);
      [lia|].
    now injection E as <- _.
  - intros Hge.
    destruct (Z.ltb_spec qtd_numeros (Z.of_nat (size s'))); [lia|].
    injection Hcl as <- _. now rewrite Hperm, set_to_list_perm.
Qed.

Lemma escolhidos_amostra top n g l g' :
  0 <= n <= Z.of_nat (length top) ->
  escolhidos top n g = Ok l g' ->
  Z.of_nat (length l) = n /\ exists r, top ≡ₚ l ++ r.
Proof.
  intros Hn. unfold escolhidos.
  destruct (Z.ltb_spec (Z.of_nat (length top)) n); [lia|].
  intros Hs. apply sample_Ok in Hs as (_ & Hlen & Hr). auto.
Qed.

Lemma quantos_de_todos (pool l : list Z) :
  (forall x, x ∈ l -> x ∈ pool) -> quantos_de pool l = length l.
Proof.
  intros H. unfold quantos_de. rewrite list_filter_all; [reflexivity|].
  now apply Forall_forall.
Qed.

Lemma quantos_de_nenhum (pool l : list Z) :
  (forall x, x ∈ l -> x ∉ pool) -> quantos_de pool l = 0%nat.
Proof.
  intros H. unfold quantos_de. induction l as [|x l IH]; [reflexivity|].
  rewrite filter_cons, decide_False by (apply H; now left).
  apply IH. intros y Hy. apply H. now right.
Qed.

(** X14.  When the two pools are duplicate-free, have no number in common
    and hold at least their quotas, the selection keeps the proportion
    exactly: every number returned comes from a pool, as many from the
    pool of frequent numbers as its quota and as many from the pool of
    stale numbers as its quota (no number is added from outside). *)
Theorem gerar_combinacao_proporcional_proporcao
    qtd_numeros foco top_freq top_atra n_freq n_atra g l g' :
  n_freq_n_atra qtd_numeros foco = inr (n_freq, n_atra) ->
  0 <= n_freq <= Z.of_nat (length top_freq) ->
  0 <= n_atra <= Z.of_nat (length top_atra) ->
  NoDup top_freq -> NoDup top_atra ->
  (forall x, x ∈ top_freq -> x ∉ top_atra) ->
  gerar_combinacao_proporcional qtd_numeros foco top_freq top_atra g = Ok l g' ->
  (forall x, x ∈ l -> x ∈ top_freq \/ x ∈ top_atra) /\
  Z.of_nat (quantos_de top_freq l) = n_freq /\
  Z.of_nat (quantos_de top_atra l) = n_atra.
Proof.
  intros Hn Hf Ha Hndf Hnda Hdisj H.
  pose proof (n_freq_n_atra_soma _ _ _ _ Hn) as Hsoma.
  rewrite (gerar_combinacao_proporcional_cotas _ _ _ _ _ _ _ Hn) in H.
  apply bind_Ok in H as (ef & g2 & Hef & H).
  apply bind_Ok in H as (ea & g3 & Hea & H).
  apply escolhidos_amostra in Hef as (Hlf & rf & Hrf); [|exact Hf].
  apply escolhidos_amostra in Hea as (Hla & ra & Hra); [|exact Ha].
  assert (Hinf : forall x, x ∈ ef -> x ∈ top_freq)
    by (intros x Hx; rewrite Hrf; apply elem_of_app; now left).
  assert (Hina : forall x, x ∈ ea -> x ∈ top_atra)
    by (intros x Hx; rewrite Hra; apply elem_of_app; now left).
  assert (Hnd : NoDup (ef ++ ea)).
  { apply NoDup_app. rewrite Hrf in Hndf. rewrite Hra in Hnda.
    apply NoDup_app in Hndf as (? & _ & _). apply NoDup_app in Hnda as (? & _ & _).
    repeat split; try assumption. intros x Hx Hx'. apply (Hdisj x); auto. }
  assert (Hsize : Z.of_nat (size (list_to_set (ef ++ ea) : gset Z)) = qtd_numeros).
  { rewrite size_list_to_set by exact Hnd. rewrite length_app. lia. }
  apply bind_Ok in H as (s & g4 & Hs & H).
  unfold fuel_preencher in Hs. cbn [preencher] in Hs.
  destruct (Z.ltb_spec (Z.of_nat (size (list_to_set (ef ++ ea) : gset Z))) qtd_numeros);
    [lia|].
  injection Hs as <- <-.
  destruct (Z.ltb_spec qtd_numeros (Z.of_nat (size (list_to_set (ef ++ ea) : gset Z))));
    [lia|].
  apply bind_Ok in H as (cl & g5 & Hcl & H). injection Hcl as <- <-.
  destruct (shuffle_Ok (set_to_list (list_to_set (ef ++ ea))) g3)
    as (l0 & g6 & Hsh & Hperm).
  rewrite Hsh in H. injection H as -> ->.
  assert (Hl : l ≡ₚ ef ++ ea).
  { rewrite Hperm, set_to_list_perm. now apply elements_list_to_set. }
  split; [|split].
  - intros x Hx. rewrite Hl in Hx. apply elem_of_app in Hx as [?|?]; auto.
  - unfold quantos_de. rewrite Hl, filter_app, length_app.
    fold (quantos_de top_freq ef). fold (quantos_de top_freq ea).
    rewrite quantos_de_todos by exact Hinf.
    rewrite quantos_de_nenhum; [lia|]. intros x Hx Hx'. apply (Hdisj x); auto.
  - unfold quantos_de. rewrite Hl, filter_app, length_app.
    fold (quantos_de top_atra ef). fold (quantos_de top_atra ea).
    rewrite (quantos_de_todos top_atra ea) by exact Hina.
    rewrite quantos_de_nenhum; [lia|]. intros x Hx Hx'. apply (Hdisj x); auto.
Qed.

Lemma gerar_combinacao_proporcional_proporcao_witness :
  (forall x, x ∈ [10; 4; 2; 19; 8; 9] -> x ∈ seqZ 1 10 \/ x ∈ seqZ 11 10) /\
  Z.of_nat (quantos_de (seqZ 1 10) [10; 4; 2; 19; 8; 9]) = 5 /\
  Z.of_nat (quantos_de (seqZ 11 10) [10; 4; 2; 19; 8; 9]) = 1.
Proof.
  assert (H : exists g',
             gerar_combinacao_proporcional 6 "frequentes" (seqZ 1 10) (seqZ 11 10)
               fluxo_exemplo = Ok [10; 4; 2; 19; 8; 9] g')
    by (apply resultado_Ok; vm_compute; reflexivity).
  destruct H as (g' & H).
  apply (gerar_combinacao_proporcional_proporcao 6 "frequentes" (seqZ 1 10) (seqZ 11 10)
           5 1 fluxo_exemplo [10; 4; 2; 19; 8; 9] g').
  - reflexivity.
  - simpl. lia.
  - simpl. lia.
  - apply NoDup_seqZ.
  - apply NoDup_seqZ.
  - intros x. rewrite !elem_of_seqZ. lia.
  - exact H.
Defined.

Lemma gerar_combinacao_proporcional_esgota_lema
    qtd_numeros foco top_freq top_atra g l g' :
  60 <= qtd_numeros ->
  (forall x, x ∈ top_freq -> 1 <= x <= 60) ->
  (forall x, x ∈ top_atra -> 1 <= x <= 60) ->
  gerar_combinacao_proporcional qtd_numeros foco top_freq top_atra g = Ok l g' ->
  l ≡ₚ seqZ 1 60.
Proof.
  intros Hq Hf Ha H.
  apply gerar_combinacao_proporcional_conjunto in H
    as (ef & ea & s & Hef & Hea & _ & Hsub & Hsize & _ & Hl).
  assert (Hs : s ⊆ universo).
  { intros x Hx. apply Hsub in Hx. apply elem_of_union in Hx as [Hx | Hx]; [|assumption].
    apply elem_of_list_to_set, elem_of_app in Hx as [Hx | Hx]; apply elem_of_universo.
    - now apply Hf, Hef.
    - now apply Ha, Hea. }
  pose proof (subseteq_size _ _ Hs) as Hle. rewrite size_universo in Hle.
  assert (Heq : s = universo).
  { destruct Hsize as [Hsize | Hu]; [|apply set_eq; intros x; split; auto].
    apply set_subseteq_size_eq; [assumption|]. rewrite size_universo. lia. }
  rewrite Hl by lia. rewrite Heq. unfold universo.
  now apply elements_list_to_set, NoDup_faixa.
Qed.

(** X15.  A count of 60 or more exhausts the range: with pools of numbers
    of 1..60, whatever [gerar_combinacao_proporcional] returns is the
    whole range 1..60 in some order, so a count above 60 gives fewer
    numbers than asked for. *)
Theorem gerar_combinacao_proporcional_esgota
    qtd_numeros foco top_freq top_atra g l g' :
  60 <= qtd_numeros ->
  (forall x, x ∈ top_freq -> 1 <= x <= 60) ->
  (forall x, x ∈ top_atra -> 1 <= x <= 60) ->
  gerar_combinacao_proporcional qtd_numeros foco top_freq top_atra g = Ok l g' ->
  l ≡ₚ seqZ 1 60.
Proof. apply gerar_combinacao_proporcional_esgota_lema. Qed.

Lemma gerar_combinacao_proporcional_esgota_witness :
  [19; 3; 6; 5; 17; 9; 10; 12; 13; 53; 21; 34; 49; 36; 23; 43; 51;
   26; 37; 25; 33; 31; 30; 45; 52; 27; 39; 35; 58; 47; 22; 42; 11;
   40; 50; 38; 1; 57; 54; 24; 7; 48; 16; 59; 29; 14; 46; 56; 18; 4;
   41; 28; 15; 2; 60; 32; 20; 8; 55; 44] ≡ₚ seqZ 1 60.
Proof.
  assert (H : exists g',
             gerar_combinacao_proporcional 70 "frequentes" (seqZ 1 10) (seqZ 11 10)
               fluxo_exemplo
             = Ok [19; 3; 6; 5; 17; 9; 10; 12; 13; 53; 21; 34; 49; 36; 23; 43; 51;
                   26; 37; 25; 33; 31; 30; 45; 52; 27; 39; 35; 58; 47; 22; 42; 11;
                   40; 50; 38; 1; 57; 54; 24; 7; 48; 16; 59; 29; 14; 46; 56; 18; 4;
                   41; 28; 15; 2; 60; 32; 20; 8; 55; 44] g')
    by (apply resultado_Ok; vm_compute; reflexivity).
  destruct H as (g' & H).
  apply (gerar_combinacao_proporcional_esgota 70 "frequentes" (seqZ 1 10) (seqZ 11 10)
           fluxo_exemplo _ g').
  - lia.
  - intros x. rewrite elem_of_seqZ. lia.
  - intros x. rewrite elem_of_seqZ. lia.
  - exact H.
Defined.

(** ** The generator: order, pools, valid counts *)

(** X16.  The combination returned by [gerar_aposta] is in strictly
    ascending order. *)
Theorem gerar_aposta_crescente
    fuel df freq atraso qtd_numeros prop_impares foco g comb g' :
  gerar_aposta fuel df freq atraso qtd_numeros prop_impares foco g = Ok comb g' ->
  StronglySorted Z.lt comb.
Proof.
  intros H. apply gerar_aposta_Ok in H as ((g0 & c & Hc & ->) & _).
  apply gerar_combinacao_proporcional_Ok in Hc as (Hnd & _ & _).
  now apply sorted_StronglySorted_lt.
Qed.

Lemma gerar_aposta_crescente_witness : StronglySorted Z.lt aposta_exemplo.
Proof.
  assert (H : exists g',
             gerar_aposta 3 historico_exemplo
               (calcular_frequencia_numeros historico_exemplo)
               (calcular_atraso_numeros historico_exemplo)
               6 (proporcao_impares_pares historico_exemplo) "equilibrado" fluxo_exemplo
             = Ok aposta_exemplo g')
    by (apply resultado_Ok; vm_compute; reflexivity).
  destruct H as (g' & H).
  exact (gerar_aposta_crescente 3 historico_exemplo
           (calcular_frequencia_numeros historico_exemplo)
           (calcular_atraso_numeros historico_exemplo)
           6 (proporcao_impares_pares historico_exemplo) "equilibrado"
           fluxo_exemplo aposta_exemplo g' H).
Defined.

Lemma sublist_take_l {A} (n : nat) (l : list A) : take n l `sublist_of` l.
Proof.
  rewrite <- (take_drop n l) at 2. apply sublist_inserts_r. reflexivity.
Qed.

(** The pool of the 30 first labels: every label left out has a value
    that comes no earlier than the value of every label taken. *)
Lemma top30_ordem {A} (geb : A -> A -> bool) (s : Series A) x y vx vy :
  (forall a b, geb a b = true \/ geb b a = true) ->
  (forall a b c, geb a b = true -> geb b c = true -> geb a c = true) ->
  NoDup (map fst s) ->
  x ∈ top30 geb s -> y ∉ top30 geb s ->
  Series_get s x = Some vx -> Series_get s y = Some vy ->
  geb vx vy = true.
Proof.
  intros Htot Htrans Hnd Hx Hy Hvx Hvy.
  set (R := fun a b : Z * A => Is_true (geb (snd a) (snd b))).
  assert (HT : Transitive R).
  { intros a b c Hab Hbc. unfold R in *. apply Is_true_true in Hab, Hbc.
    apply Is_true_true. eauto. }
  assert (HTot : Total R).
  { intros a b. unfold R. destruct (Htot (snd a) (snd b)) as [H | H];
      [left | right]; now apply Is_true_true. }
  pose proof (StronglySorted_merge_sort R s) as Hss.
  pose proof (merge_sort_Permutation R s) as Hperm.
  unfold top30 in Hx, Hy. fold R in Hx, Hy.
  set (ss := merge_sort R s) in *.
  unfold Series_get in Hvx, Hvy.
  apply elem_of_list_to_map_2 in Hvx, Hvy.
  rewrite <- Hperm in Hvx, Hvy.
  assert (Hndss : NoDup (map fst ss)) by now rewrite Hperm.
  change (map fst ss) with (fst <$> ss) in Hx, Hy, Hndss.
  rewrite <- fmap_take in Hx, Hy.
  apply list_elem_of_fmap_1 in Hx as ([x' vx'] & -> & Hx). simpl in *.
  assert (vx' = vx).
  { assert (Hx' : (x', vx') ∈ ss) by now apply (subseteq_take 30 ss).
    pose proof (elem_of_list_to_map_1 (M := gmap Z) ss x' vx' Hndss Hx') as E1.
    pose proof (elem_of_list_to_map_1 (M := gmap Z) ss x' vx Hndss Hvx) as E2.
    congruence. }
  subst vx'.
  assert (Hss' : StronglySorted R (take 30 ss ++ drop 30 ss))
    by now rewrite take_drop.
  assert (Hvy' : (y, vy) ∈ take 30 ss ++ drop 30 ss) by now rewrite take_drop.
  clear Hvy. rename Hvy' into Hvy.
  apply elem_of_app in Hvy as [Hvy | Hvy].
  - exfalso. apply Hy. now apply (list_elem_of_fmap_2 fst) in Hvy.
  - pose proof (StronglySorted_app_1_elem_of _ _ _ _ _ Hss' Hx Hvy) as HR.
    unfold R in HR. simpl in HR. now apply Is_true_true.
Qed.

Lemma Zgeb_total a b : (a >=? b) = true \/ (b >=? a) = true.
Proof. rewrite !Z.geb_le. lia. Qed.

Lemma Zgeb_trans a b c : (a >=? b) = true -> (b >=? c) = true -> (a >=? c) = true.
Proof. rewrite !Z.geb_le. lia. Qed.

Lemma geb_nan_total a b : geb_nan a b = true \/ geb_nan b a = true.
Proof. destruct a, b; simpl; auto; rewrite !Z.leb_le; lia. Qed.

Lemma geb_nan_trans a b c :
  geb_nan a b = true -> geb_nan b c = true -> geb_nan a c = true.
Proof.
  destruct a, b, c; simpl; auto; try discriminate; rewrite !Z.leb_le; lia.
Qed.

Lemma NoDup_rotulos_tabela {A} (f : Z -> A) :
  NoDup (map fst (map (fun n => (n, f n)) faixa)).
Proof.
  change (NoDup ((map (fun n => (n, f n)) faixa).*1)).
  rewrite rotulos_tabela. apply NoDup_faixa.
Qed.

(** X17.  The pool of frequent numbers holds the most frequent ones: a
    number of 1..60 outside the pool was drawn no more often than any
    number inside it. *)
Theorem top_freq_mais_frequentes (df : DataFrame) (x y : Z) :
  x ∈ top30 Z.geb (calcular_frequencia_numeros df) ->
  1 <= y <= 60 ->
  y ∉ top30 Z.geb (calcular_frequencia_numeros df) ->
  ocorrencias y df <= ocorrencias x df.
Proof.
  intros Hx Hy Hny.
  assert (Hxr : NUM_MIN <= x <= NUM_MAX)
    by (eapply top30_na_faixa; [apply rotulos_calcular_frequencia_numeros | exact Hx]).
  pose proof (top30_ordem Z.geb (calcular_frequencia_numeros df) x y
                (ocorrencias x df) (ocorrencias y df) Zgeb_total Zgeb_trans) as H.
  apply Z.geb_le, H; try assumption.
  - apply NoDup_rotulos_tabela.
  - apply (lookup_tabela_faixa (fun n => ocorrencias n df) x Hxr).
  - apply (lookup_tabela_faixa (fun n => ocorrencias n df) y Hy).
Qed.

Lemma top_freq_mais_frequentes_witness :
  ocorrencias 2 historico_exemplo <= ocorrencias 41 historico_exemplo.
Proof.
  apply (top_freq_mais_frequentes historico_exemplo 41 2).
  - vm_compute. set_solver.
  - lia.
  - vm_compute. set_solver.
Defined.

(** X18.  The pool of stale numbers holds the stalest ones: a number of
    1..60 outside the pool has a staleness no greater than any number
    inside it. *)
Theorem top_atra_mais_atrasados (df : DataFrame) (x y vx vy : Z) :
  x ∈ top30 geb_nan (calcular_atraso_numeros df) ->
  y ∉ top30 geb_nan (calcular_atraso_numeros df) ->
  Series_get (calcular_atraso_numeros df) x = Some (Some vx) ->
  Series_get (calcular_atraso_numeros df) y = Some (Some vy) ->
  vy <= vx.
Proof.
  intros Hx Hny Hvx Hvy.
  pose proof (top30_ordem geb_nan (calcular_atraso_numeros df) x y
                (Some vx) (Some vy) geb_nan_total geb_nan_trans) as H.
  apply Z.leb_le. apply H; try assumption. apply NoDup_rotulos_tabela.
Qed.

Lemma top_atra_mais_atrasados_witness : 0 <= 4.
Proof.
  apply (top_atra_mais_atrasados historico_exemplo 60 1 4 0).
  - vm_compute. set_solver.
  - vm_compute. set_solver.
  - reflexivity.
  - reflexivity.
Defined.

Lemma top30_tabela {A} (geb : A -> A -> bool) (f : Z -> A) :
  length (top30 geb (map (fun n => (n, f n)) faixa)) = 30%nat /\
  NoDup (top30 geb (map (fun n => (n, f n)) faixa)) /\
  Forall (fun x => 1 <= x <= 60) (top30 geb (map (fun n => (n, f n)) faixa)).
Proof.
  split; [|split].
  - unfold top30. rewrite length_take, length_map.
    rewrite (Permutation_length (merge_sort_Permutation _ _)), length_map.
    reflexivity.
  - unfold top30. eapply sublist_NoDup; [|apply sublist_take_l].
    rewrite merge_sort_Permutation. apply NoDup_rotulos_tabela.
  - apply Forall_forall. intros x Hx.
    apply (top30_na_faixa geb (map (fun n => (n, f n)) faixa)); [|exact Hx].
    apply rotulos_map_faixa.
Qed.

(** X19.  From the two tables of a history, whatever it is,
    [gerar_aposta] builds two pools of exactly 30 distinct numbers of
    1..60 each. *)
Theorem pools_de_30 (df : DataFrame) :
  length (top30 Z.geb (calcular_frequencia_numeros df)) = 30%nat /\
  length (top30 geb_nan (calcular_atraso_numeros df)) = 30%nat /\
  NoDup (top30 Z.geb (calcular_frequencia_numeros df)) /\
  NoDup (top30 geb_nan (calcular_atraso_numeros df)) /\
  Forall (fun x => 1 <= x <= 60) (top30 Z.geb (calcular_frequencia_numeros df)) /\
  Forall (fun x => 1 <= x <= 60) (top30 geb_nan (calcular_atraso_numeros df)).
Proof.
  destruct (top30_tabela Z.geb (fun n => ocorrencias n df)) as (A1 & A2 & A3).
  destruct (top30_tabela geb_nan
              (fun n => if (ultimo_concurso_num df !!! n) =? -1
                        then Series_max (map CONCURSO df)
                        else (fun u => wrap_int64 (u - ultimo_concurso_num df !!! n))
                               <$> Series_max (map CONCURSO df)))
    as (B1 & B2 & B3).
  repeat split; assumption.
Qed.

Lemma n_freq_n_atra_valida qtd_numeros foco :
  6 <= qtd_numeros <= 15 ->
  exists n_freq n_atra,
    n_freq_n_atra qtd_numeros foco = inr (n_freq, n_atra) /\ 0 <= n_freq /\ 0 <= n_atra.
Proof.
  intros HN.
  assert (H : qtd_numeros = 6 \/ qtd_numeros = 7 \/ qtd_numeros = 8 \/ qtd_numeros = 9 \/
              qtd_numeros = 10 \/ qtd_numeros = 11 \/ qtd_numeros = 12 \/
              qtd_numeros = 13 \/ qtd_numeros = 14 \/ qtd_numeros = 15) by lia.
  unfold n_freq_n_atra.
  destruct (String.eqb foco "frequentes"); [|destruct (String.eqb foco "atrasados")];
    repeat destruct H as [-> | H]; try subst qtd_numeros; vm_compute;
    (eexists _, _; split; [reflexivity | split; discriminate]).
Qed.

(** One attempt for a count of 6..15 ends in [return] or in [continue]. *)
Lemma tentativa_valida df qtd_numeros prop_impares foco top_freq top_atra g :
  6 <= qtd_numeros <= 15 ->
  exists c g',
    gerar_combinacao_proporcional qtd_numeros foco top_freq top_atra g = Ok c g' /\
    Z.of_nat (length c) = qtd_numeros /\
    tentativa df qtd_numeros prop_impares foco top_freq top_atra g =
    Ok (if negb (na_janela prop_impares
                   (float_of_int (conta_impares (sorted c)) / float_of_int qtd_numeros)%float)
        then None
        else if ja_saiu_no_historico (sorted c) df then None
        else if tem_mais_de_3_consecutivos (sorted c) then None
        else Some (sorted c)) g'.
Proof.
  intros Hq.
  destruct (n_freq_n_atra_valida qtd_numeros foco Hq) as (nf & na & Hn & Hnf & Hna).
  destruct (gerar_combinacao_proporcional_returns qtd_numeros foco top_freq top_atra
              nf na g Hn Hnf Hna ltac:(lia)) as (c & g' & Hc).
  exists c, g'. split; [assumption|]. split.
  - apply gerar_combinacao_proporcional_Ok in Hc as (_ & _ & Hlen).
    apply Hlen. unfold NUM_MAX. lia.
  - unfold tentativa. rewrite (bind_eq_Ok _ _ _ _ _ Hc).
    unfold true_div. destruct (Z.eqb_spec qtd_numeros 0); [lia|].
    unfold lift, bind, ret.
    repeat match goal with |- context [if ?b then _ else _] => destruct b end;
      reflexivity.
Qed.

(** X20.  For a count of 6..15 [gerar_aposta] never raises: whatever the
    history, the tables, the odd ratio, the focus string and the random
    stream, it returns a combination or is still looking for one. *)
Theorem gerar_aposta_nao_levanta
    fuel df freq atraso qtd_numeros prop_impares foco g :
  6 <= qtd_numeros <= 15 ->
  resultado (gerar_aposta fuel df freq atraso qtd_numeros prop_impares foco g) = None \/
  exists comb,
    resultado (gerar_aposta fuel df freq atraso qtd_numeros prop_impares foco g)
    = Some (inr comb).
Proof.
  intros Hq. unfold gerar_aposta. revert g.
  induction fuel as [|fuel IH]; intros g; [now left|].
  cbn [gerar_aposta_loop].
  destruct (tentativa_valida df qtd_numeros prop_impares foco
              (top30 Z.geb freq) (top30 geb_nan atraso) g Hq) as (c & g1 & _ & _ & Ht).
  rewrite (bind_eq_Ok _ _ _ _ _ Ht).
  match goal with |- context [match ?r with Some _ => _ | None => _ end] =>
    destruct r end; [right; eexists; reflexivity | apply IH].
Qed.

Lemma gerar_aposta_nao_levanta_witness :
  resultado (gerar_aposta 5 historico_exemplo
               (calcular_frequencia_numeros historico_exemplo)
               (calcular_atraso_numeros historico_exemplo)
               9 (proporcao_impares_pares historico_exemplo) "atrasados"
               fluxo_exemplo) = None \/
  exists comb,
    resultado (gerar_aposta 5 historico_exemplo
                 (calcular_frequencia_numeros historico_exemplo)
                 (calcular_atraso_numeros historico_exemplo)
                 9 (proporcao_impares_pares historico_exemplo) "atrasados"
                 fluxo_exemplo) = Some (inr comb).
Proof.
  apply (gerar_aposta_nao_levanta 5 historico_exemplo
           (calcular_frequencia_numeros historico_exemplo)
           (calcular_atraso_numeros historico_exemplo)
           9 (proporcao_impares_pares historico_exemplo) "atrasados" fluxo_exemplo).
  lia.
Defined.

(** X21.  When no count of odd numbers among the requested count falls
    inside the window of the odd ratio, [gerar_aposta] (for a count of
    6..15) never ends: every attempt is rejected by the window test, for
    every random stream. *)
Theorem gerar_aposta_janela_vazia
    fuel df freq atraso qtd_numeros prop_impares foco g :
  6 <= qtd_numeros <= 15 ->
  (forall k, 0 <= k <= qtd_numeros ->
     na_janela prop_impares (float_of_int k / float_of_int qtd_numeros)%float = false) ->
  gerar_aposta fuel df freq atraso qtd_numeros prop_impares foco g = OutOfFuel.
Proof.
  intros Hq Hj. unfold gerar_aposta. revert g.
  induction fuel as [|fuel IH]; intros g; [reflexivity|].
  cbn [gerar_aposta_loop].
  destruct (tentativa_valida df qtd_numeros prop_impares foco
              (top30 Z.geb freq) (top30 geb_nan atraso) g Hq) as (c & g1 & _ & Hlen & Ht).
  rewrite (bind_eq_Ok _ _ _ _ _ Ht).
  pose proof (conta_impares_bounds (sorted c)) as Hb.
  rewrite (Permutation_length (sorted_perm c)) in Hb.
  rewrite Hj by lia. simpl. apply IH.
Qed.

Lemma gerar_aposta_janela_vazia_witness :
  gerar_aposta 50 historico_pares
    (calcular_frequencia_numeros historico_pares)
    (calcular_atraso_numeros historico_pares)
    6 (proporcao_impares_pares historico_pares) "frequentes" fluxo_quadrados
  = OutOfFuel.
Proof.
  apply (gerar_aposta_janela_vazia 50 historico_pares
           (calcular_frequencia_numeros historico_pares)
           (calcular_atraso_numeros historico_pares)
           6 (proporcao_impares_pares historico_pares) "frequentes" fluxo_quadrados).
  - lia.
  - exact janela_historico_pares.
Defined.

(** ** The Mega da Virada filter *)

Lemma da_virada_spec l :
  da_virada l = true <->
  mes (DATA_DO_SORTEIO l) = 12 /\ dia (DATA_DO_SORTEIO l) = 31 /\
  2008 <= ano (DATA_DO_SORTEIO l).
Proof.
  unfold da_virada. rewrite !andb_true_iff, !Z.eqb_eq, Z.leb_le. tauto.
Qed.

Lemma filtrar_sublist df : filtrar_mega_da_virada df `sublist_of` df.
Proof.
  unfold filtrar_mega_da_virada. induction df as [|l df IH]; simpl; [constructor|].
  destruct (da_virada l); now constructor.
Qed.

Lemma StronglySorted_sublist {A} (R : relation A) (l1 l2 : list A) :
  l1 `sublist_of` l2 -> StronglySorted R l2 -> StronglySorted R l1.
Proof.
  induction 1 as [|x l1 l2 Hs IH|x l1 l2 Hs IH]; intros H2; [constructor| |].
  - apply StronglySorted_inv in H2 as (H2 & Hall). constructor; [auto|].
    rewrite Forall_forall in *. intros y Hy. apply Hall.
    now apply (sublist_subseteq _ _ Hs).
  - apply StronglySorted_inv in H2 as (H2 & _). auto.
Qed.

(** X22.  [filtrar_mega_da_virada] keeps exactly the rows drawn on a 31st
    of December from 2008 on, in the order they had; filtering again
    changes nothing; and a table in ascending order of contest number
    stays so. *)
Theorem filtrar_mega_da_virada_correto (df : list linha) :
  (forall l, l ∈ filtrar_mega_da_virada df <->
     l ∈ df /\ mes (DATA_DO_SORTEIO l) = 12 /\ dia (DATA_DO_SORTEIO l) = 31 /\
     2008 <= ano (DATA_DO_SORTEIO l)) /\
  filtrar_mega_da_virada df `sublist_of` df /\
  filtrar_mega_da_virada (filtrar_mega_da_virada df) = filtrar_mega_da_virada df /\
  (concursos_crescentes (map SORTEIO df) ->
   concursos_crescentes (map SORTEIO (filtrar_mega_da_virada df))).
Proof.
  split; [|split; [|split]].
  - intros l. unfold filtrar_mega_da_virada.
    rewrite list_elem_of_In, filter_In, <- list_elem_of_In, da_virada_spec. tauto.
  - apply filtrar_sublist.
  - unfold filtrar_mega_da_virada. induction df as [|l df IH]; [reflexivity|].
    simpl. destruct (da_virada l) eqn:E; [|exact IH]. simpl. now rewrite E, IH.
  - unfold concursos_crescentes.
    apply StronglySorted_sublist.
    change (map SORTEIO (filtrar_mega_da_virada df))
      with (SORTEIO <$> filtrar_mega_da_virada df).
    change (map SORTEIO df) with (SORTEIO <$> df).
    apply fmap_sublist, filtrar_sublist.
Qed.

(** ** The questions of [main] *)

Lemma pedir_qtd_numeros_lema
    (int : string -> option Z) (entradas : list string) qtd_numeros resto :
  pedir_qtd_numeros int entradas = Some (qtd_numeros, resto) ->
  6 <= qtd_numeros <= 15 /\
  exists antes e,
    entradas = antes ++ e :: resto /\ int e = Some qtd_numeros /\
    forall a v, a ∈ antes -> int a = Some v -> ~ (6 <= v <= 15).
Proof.
  induction entradas as [|e entradas IH]; simpl; [discriminate|].
  destruct (int e) as [q|] eqn:Hq.
  - destruct ((6 <=? q) && (q <=? 15)) eqn:Hr.
    + intros [= <- <-]. apply andb_true_iff in Hr as (H1 & H2).
      apply Z.leb_le in H1, H2. split; [lia|].
      exists [], e. split; [reflexivity|]. split; [assumption|].
      intros a v Ha. now apply not_elem_of_nil in Ha.
    + intros H. destruct (IH H) as (Hrange & antes & e' & -> & He' & Hantes).
      split; [assumption|]. exists (e :: antes), e'.
      split; [reflexivity|]. split; [assumption|].
      intros a v [-> | Ha]%elem_of_cons Hv; [|eauto].
      rewrite Hq in Hv. injection Hv as <-. intros Hin.
      apply andb_false_iff in Hr as [Hr | Hr]; apply Z.leb_gt in Hr; lia.
  - intros H. destruct (IH H) as (Hrange & antes & e' & -> & He' & Hantes).
    split; [assumption|]. exists (e :: antes), e'.
    split; [reflexivity|]. split; [assumption|].
    intros a v [-> | Ha]%elem_of_cons Hv; [congruence | eauto].
Qed.

(** X23.  The count that the prompt loop of [main] hands on is between 6
    and 15: it is the conversion of the first line typed that converts to
    a number of that range, every line before it having been refused, and
    the lines after it are left for the next questions. *)
Theorem pedir_qtd_numeros_correto
    (int : string -> option Z) (entradas : list string) qtd_numeros resto :
  pedir_qtd_numeros int entradas = Some (qtd_numeros, resto) ->
  6 <= qtd_numeros <= 15 /\
  exists antes e,
    entradas = antes ++ e :: resto /\ int e = Some qtd_numeros /\
    forall a v, a ∈ antes -> int a = Some v -> ~ (6 <= v <= 15).
Proof. apply pedir_qtd_numeros_lema. Qed.

Lemma pedir_qtd_numeros_correto_witness :
  6 <= 6 <= 15 /\
  exists antes e,
    ["abc"; "20"; "6"; "n"; "3"] = antes ++ e :: ["n"; "3"] /\
    int_exemplo e = Some 6 /\
    forall a v, a ∈ antes -> int_exemplo a = Some v -> ~ (6 <= v <= 15).
Proof.
  apply (pedir_qtd_numeros_correto int_exemplo ["abc"; "20"; "6"; "n"; "3"] 6 ["n"; "3"]).
  reflexivity.
Defined.

(** What [gerar_aposta] returns, for tables over 1..60. *)
Lemma gerar_aposta_resumo
    fuel df freq atraso qtd_numeros prop_impares foco g comb g' :
  1 <= qtd_numeros <= 60 ->
  rotulos_na_faixa freq -> rotulos_na_faixa atraso ->
  gerar_aposta fuel df freq atraso qtd_numeros prop_impares foco g = Ok comb g' ->
  Z.of_nat (length comb) = qtd_numeros /\
  StronglySorted Z.lt comb /\
  Forall (fun x => 1 <= x <= 60) comb /\
  (forall r, r ∈ df -> ~ mesmo_conjunto comb (BOLAS r)) /\
  ~ contem_4_seguidos comb.
Proof.
  intros Hq Hf Ha H.
  apply gerar_aposta_Ok in H as ((g0 & c & Hc & ->) & (_ & Hs & Ht)).
  apply gerar_combinacao_proporcional_Ok in Hc as (Hnd & Hmem & Hlen).
  split; [|split; [|split; [|split]]].
  - rewrite sorted_perm. apply Hlen. unfold NUM_MAX. lia.
  - now apply sorted_StronglySorted_lt.
  - rewrite sorted_perm. apply Forall_forall. intros x Hx.
    destruct (Hmem x Hx) as [Hx' | [Hx' | Hx']].
    + now apply (top30_na_faixa Z.geb freq).
    + now apply (top30_na_faixa geb_nan atraso).
    + exact Hx'.
  - intros r Hr Hsame.
    assert (ja_saiu_no_historico (sorted c) df = true)
      by (apply ja_saiu_no_historico_spec; eauto).
    congruence.
  - intros Hrun. rewrite <- sorted_perm in Hnd.
    apply tem_mais_de_3_consecutivos_contem in Hrun; [congruence | assumption].
Qed.

(** X24.  Whatever bet [main] prints, for any table and any lines typed:
    it has between 6 and 15 numbers, as many as the accepted answer to the
    count question; they are numbers of 1..60 in strictly ascending order;
    the bet is the set of no draw of the history chosen by the first
    answer (the Mega da Virada draws for "1", the whole table otherwise);
    and it holds no four consecutive numbers. *)
Theorem main_aposta
    (int : string -> option Z) fuel (df_completo : list linha)
    (entradas : list string) g aposta g' :
  main int fuel df_completo entradas g = Ok (Some aposta) g' ->
  let historico :=
    map SORTEIO (if String.eqb (hd "" entradas) "1"
                 then filtrar_mega_da_virada df_completo else df_completo) in
  (exists qtd_numeros resto,
     pedir_qtd_numeros int (tl entradas) = Some (qtd_numeros, resto) /\
     Z.of_nat (length aposta) = qtd_numeros) /\
  6 <= Z.of_nat (length aposta) <= 15 /\
  StronglySorted Z.lt aposta /\
  Forall (fun x => 1 <= x <= 60) aposta /\
  (forall r, r ∈ historico -> ~ mesmo_conjunto aposta (BOLAS r)) /\
  ~ contem_4_seguidos aposta.
Proof.
  unfold main. destruct entradas as [|opcao entradas1]; [discriminate|].
  cbn [hd tl].
  destruct (String.eqb opcao "1"
            && bool_decide ((if String.eqb opcao "1"
                             then filtrar_mega_da_virada df_completo
                             else df_completo) = [])); [discriminate|].
  destruct (pedir_qtd_numeros int entradas1) as [[q entradas2]|] eqn:Hp; [|discriminate].
  destruct entradas2 as [|plotar [|foco_opcao entradas3]]; [discriminate..|].
  intros H. apply bind_Ok in H as (comb & g1 & H & Hret).
  injection Hret as <- <-.
  apply pedir_qtd_numeros_lema in Hp as Hq. destruct Hq as (Hq & _).
  apply gerar_aposta_resumo in H as (Hlen & Hasc & Hrange & Hhist & Hrun).
  - cbv zeta. split; [eauto|]. split; [lia|]. auto.
  - lia.
  - apply rotulos_calcular_frequencia_numeros.
  - apply rotulos_calcular_atraso_numeros.
Qed.

Lemma main_aposta_witness :
  (exists qtd_numeros resto,
     pedir_qtd_numeros int_exemplo ["abc"; "20"; "6"; "n"; "3"]
     = Some (qtd_numeros, resto) /\
     Z.of_nat (length [10; 11; 14; 40; 41; 53]) = qtd_numeros) /\
  6 <= Z.of_nat (length [10; 11; 14; 40; 41; 53]) <= 15 /\
  StronglySorted Z.lt [10; 11; 14; 40; 41; 53] /\
  Forall (fun x => 1 <= x <= 60) [10; 11; 14; 40; 41; 53] /\
  (forall r, r ∈ map SORTEIO tabela_exemplo ->
     ~ mesmo_conjunto [10; 11; 14; 40; 41; 53] (BOLAS r)) /\
  ~ contem_4_seguidos [10; 11; 14; 40; 41; 53].
Proof.
  assert (H : exists g',
             main int_exemplo 40 tabela_exemplo ["2"; "abc"; "20"; "6"; "n"; "3"]
               fluxo_exemplo = Ok (Some [10; 11; 14; 40; 41; 53]) g')
    by (apply resultado_Ok; vm_compute; reflexivity).
  destruct H as (g' & H).
  exact (main_aposta int_exemplo 40 tabela_exemplo ["2"; "abc"; "20"; "6"; "n"; "3"]
           fluxo_exemplo [10; 11; 14; 40; 41; 53] g' H).
Defined.

(** X25.  A count of 60 or more is never served: with tables over 1..60
    every attempt of [gerar_aposta] selects the whole range 1..60, which
    holds four consecutive numbers and is refused by the run check, so
    that the call raises or never ends, but returns no combination. *)
Theorem gerar_aposta_contagem_60
    fuel df freq atraso qtd_numeros prop_impares foco g :
  60 <= qtd_numeros ->
  rotulos_na_faixa freq -> rotulos_na_faixa atraso ->
  resultado (gerar_aposta fuel df freq atraso qtd_numeros prop_impares foco g) = None \/
  exists e,
    resultado (gerar_aposta fuel df freq atraso qtd_numeros prop_impares foco g)
    = Some (inl e).
Proof.
  intros Hq Hf Ha.
  destruct (gerar_aposta fuel df freq atraso qtd_numeros prop_impares foco g)
    as [comb g' | e g' |] eqn:H; simpl; [exfalso | eauto | auto].
  apply gerar_aposta_Ok in H as ((g0 & c & Hc & ->) & (_ & _ & Ht)).
  pose proof Hc as Hnd. apply gerar_combinacao_proporcional_Ok in Hnd as (Hnd & _ & _).
  apply gerar_combinacao_proporcional_esgota_lema in Hc; [|assumption|..].
  - rewrite <- sorted_perm in Hnd.
    assert (Hrun : contem_4_seguidos (sorted c)).
    { exists 1. rewrite !sorted_perm, Hc, !elem_of_seqZ. lia. }
    apply tem_mais_de_3_consecutivos_contem in Hrun; [congruence | assumption].
  - intros x Hx. now apply (top30_na_faixa Z.geb freq).
  - intros x Hx. now apply (top30_na_faixa geb_nan atraso).
Qed.

Lemma gerar_aposta_contagem_60_witness :
  resultado (gerar_aposta 4 historico_exemplo
               (calcular_frequencia_numeros historico_exemplo)
               (calcular_atraso_numeros historico_exemplo)
               60 (proporcao_impares_pares historico_exemplo) "equilibrado"
               fluxo_exemplo) = None \/
  exists e,
    resultado (gerar_aposta 4 historico_exemplo
                 (calcular_frequencia_numeros historico_exemplo)
                 (calcular_atraso_numeros historico_exemplo)
                 60 (proporcao_impares_pares historico_exemplo) "equilibrado"
                 fluxo_exemplo) = Some (inl e).
Proof.
  apply (gerar_aposta_contagem_60 4 historico_exemplo
           (calcular_frequencia_numeros historico_exemplo)
           (calcular_atraso_numeros historico_exemplo)
           60 (proporcao_impares_pares historico_exemplo) "equilibrado" fluxo_exemplo).
  - lia.
  - apply rotulos_calcular_frequencia_numeros.
  - apply rotulos_calcular_atraso_numeros.
Defined.

(** * C7: [gerar_aposta] does not validate its configuration *)

(** The quotas of every count of 1..60, for each of the three branches of
    the focus test, are computed and are not negative. *)
Lemma n_freq_n_atra_faixa qtd_numeros foco :
  1 <= qtd_numeros <= 60 ->
  exists n_freq n_atra,
    n_freq_n_atra qtd_numeros foco = inr (n_freq, n_atra) /\ 0 <= n_freq /\ 0 <= n_atra.
Proof.
  intros Hq.
  assert (H : forallb (fun q => cotas_validas (n_freq_n_atra q "frequentes")
                                && cotas_validas (n_freq_n_atra q "atrasados")
                                && cotas_validas (n_freq_n_atra q "equilibrado"))
                      (seqZ 1 60) = true) by (vm_compute; reflexivity).
  rewrite forallb_forall in H. specialize (H qtd_numeros).
  rewrite !andb_true_iff in H.
  destruct H as ((Hf & Ha) & He);
    [apply list_elem_of_In, elem_of_seqZ; lia |].
  assert (Hc : cotas_validas (n_freq_n_atra qtd_numeros foco) = true).
  { destruct (String.eqb_spec foco "frequentes") as [-> | H1]; [assumption|].
    destruct (String.eqb_spec foco "atrasados") as [-> | H2]; [assumption|].
    now rewrite (n_freq_n_atra_outro_foco _ _ H1 H2). }
  destruct (n_freq_n_atra qtd_numeros foco) as [e | [nf na]]; [discriminate|].
  simpl in Hc. apply andb_true_iff in Hc as (Hnf & Hna).
  apply Z.leb_le in Hnf, Hna. eauto.
Qed.

(** One attempt for a count of 1..60 selects that many distinct numbers
    and ends in [return] or in [continue]. *)
Lemma tentativa_faixa df qtd_numeros prop_impares foco top_freq top_atra g :
  1 <= qtd_numeros <= 60 ->
  exists c g',
    gerar_combinacao_proporcional qtd_numeros foco top_freq top_atra g = Ok c g' /\
    Z.of_nat (length c) = qtd_numeros /\ NoDup c /\
    exists r, tentativa df qtd_numeros prop_impares foco top_freq top_atra g = Ok r g'.
Proof.
  intros Hq.
  destruct (n_freq_n_atra_faixa qtd_numeros foco Hq) as (nf & na & Hn & Hnf & Hna).
  destruct (gerar_combinacao_proporcional_returns qtd_numeros foco top_freq top_atra
              nf na g Hn Hnf Hna ltac:(lia)) as (c & g' & Hc).
  exists c, g'. split; [assumption|].
  pose proof Hc as Hok.
  apply gerar_combinacao_proporcional_Ok in Hok as (Hnd & _ & Hlen).
  split; [apply Hlen; unfold NUM_MAX; lia|]. split; [assumption|].
  unfold tentativa. rewrite (bind_eq_Ok _ _ _ _ _ Hc).
  unfold true_div. destruct (Z.eqb_spec qtd_numeros 0); [lia|].
  unfold lift, bind, ret.
  repeat match goal with |- context [if ?b then _ else _] => destruct b end;
    eexists; reflexivity.
Qed.

Lemma gerar_aposta_loop_faixa df qtd_numeros prop_impares foco top_freq top_atra :
  1 <= qtd_numeros <= 60 ->
  forall fuel g e g',
  gerar_aposta_loop fuel df qtd_numeros prop_impares foco top_freq top_atra g <> Err e g'.
Proof.
  intros Hq. induction fuel as [|fuel IH]; intros g e g'; [discriminate|].
  cbn [gerar_aposta_loop].
  destruct (tentativa_faixa df qtd_numeros prop_impares foco top_freq top_atra g Hq)
    as (c & g1 & _ & _ & _ & r & Ht).
  rewrite (bind_eq_Ok _ _ _ _ _ Ht).
  destruct r as [comb|]; [discriminate | apply IH].
Qed.

(** C7, counterexample.  A count of 16, outside 6..15, and a focus that is
    none of the three names are not rejected.  On the sample history, for
    every random stream, the selection samples 16 (or 6) distinct numbers
    and [gerar_aposta] raises nothing, however many attempts it makes; and
    for some random stream it returns a combination of 16 (or 6)
    numbers. *)
Lemma gerar_aposta_configuracao_counterexample :
  ((forall g, exists c g',
      gerar_combinacao_proporcional 16 "frequentes"
        (top30 Z.geb (calcular_frequencia_numeros historico_exemplo))
        (top30 geb_nan (calcular_atraso_numeros historico_exemplo)) g = Ok c g' /\
      length c = 16%nat /\ NoDup c) /\
   (forall fuel g e g',
      gerar_aposta fuel historico_exemplo
        (calcular_frequencia_numeros historico_exemplo)
        (calcular_atraso_numeros historico_exemplo)
        16 (proporcao_impares_pares historico_exemplo) "frequentes" g <> Err e g') /\
   (exists fuel g comb g',
      gerar_aposta fuel historico_exemplo
        (calcular_frequencia_numeros historico_exemplo)
        (calcular_atraso_numeros historico_exemplo)
        16 (proporcao_impares_pares historico_exemplo) "frequentes" g = Ok comb g' /\
      length comb = 16%nat)) /\
  ((forall g, exists c g',
      gerar_combinacao_proporcional 6 "aleatorio"
        (top30 Z.geb (calcular_frequencia_numeros historico_exemplo))
        (top30 geb_nan (calcular_atraso_numeros historico_exemplo)) g = Ok c g' /\
      length c = 6%nat /\ NoDup c) /\
   (forall fuel g e g',
      gerar_aposta fuel historico_exemplo
        (calcular_frequencia_numeros historico_exemplo)
        (calcular_atraso_numeros historico_exemplo)
        6 (proporcao_impares_pares historico_exemplo) "aleatorio" g <> Err e g') /\
   (exists fuel g comb g',
      gerar_aposta fuel historico_exemplo
        (calcular_frequencia_numeros historico_exemplo)
        (calcular_atraso_numeros historico_exemplo)
        6 (proporcao_impares_pares historico_exemplo) "aleatorio" g = Ok comb g' /\
      length comb = 6%nat)).
Proof.
  assert (Hsel : forall q foco, 1 <= q <= 60 ->
            forall g, exists c g',
              gerar_combinacao_proporcional q foco
                (top30 Z.geb (calcular_frequencia_numeros historico_exemplo))
                (top30 geb_nan (calcular_atraso_numeros historico_exemplo)) g = Ok c g' /\
              length c = Z.to_nat q /\ NoDup c).
  { intros q foco Hq g.
    destruct (tentativa_faixa historico_exemplo q
                (proporcao_impares_pares historico_exemplo) foco
                (top30 Z.geb (calcular_frequencia_numeros historico_exemplo))
                (top30 geb_nan (calcular_atraso_numeros historico_exemplo)) g Hq)
      as (c & g' & Hc & Hlen & Hnd & _).
    exists c, g'. split; [assumption|]. split; [lia | assumption]. }
  split; (split; [|split]).
  - apply (Hsel 16 "frequentes"). lia.
  - intros fuel g e g'. unfold gerar_aposta. apply gerar_aposta_loop_faixa. lia.
  - assert (H : resultado
                  (gerar_aposta 4 historico_exemplo
                     (calcular_frequencia_numeros historico_exemplo)
                     (calcular_atraso_numeros historico_exemplo)
                     16 (proporcao_impares_pares historico_exemplo) "frequentes"
                     fluxo_exemplo)
                = Some (inr [1; 3; 4; 16; 18; 33; 39; 41; 49; 50; 51; 53; 55; 56; 59; 60]))
      by (vm_compute; reflexivity).
    apply resultado_Ok in H as (g' & H).
    eexists 4%nat, fluxo_exemplo, _, g'. split; [exact H | reflexivity].
  - apply (Hsel 6 "aleatorio"). lia.
  - intros fuel g e g'. unfold gerar_aposta. apply gerar_aposta_loop_faixa. lia.
  - assert (H : resultado
                  (gerar_aposta 3 historico_exemplo
                     (calcular_frequencia_numeros historico_exemplo)
                     (calcular_atraso_numeros historico_exemplo)
                     6 (proporcao_impares_pares historico_exemplo) "aleatorio"
                     fluxo_exemplo)
                = Some (inr aposta_exemplo))
      by (vm_compute; reflexivity).
    apply resultado_Ok in H as (g' & H).
    eexists 3%nat, fluxo_exemplo, _, g'. split; [exact H | reflexivity].
Qed.

(** C7, as the program has it.  Neither [gerar_aposta] nor
    [gerar_combinacao_proporcional] checks the configuration, and there is
    no configuration error.  A focus other than 'frequentes' and
    'atrasados' gives exactly what 'equilibrado' gives.  For a count of
    1..60, whatever the focus, every selection returns that many distinct
    numbers, [gerar_aposta] raises nothing, and a combination it returns
    has that many distinct numbers.  A count of zero makes the first
    attempt raise [ZeroDivisionError] in the window test, after the
    selection has run; a negative count makes it raise the [ValueError] of
    [random.sample] or the [OverflowError] of [math.ceil]. *)
Theorem gerar_aposta_sem_validacao
    fuel df freq atraso qtd_numeros prop_impares foco g :
  (foco <> "frequentes" -> foco <> "atrasados" ->
   gerar_aposta fuel df freq atraso qtd_numeros prop_impares foco g =
   gerar_aposta fuel df freq atraso qtd_numeros prop_impares "equilibrado" g) /\
  (1 <= qtd_numeros <= 60 ->
   (exists c g',
      gerar_combinacao_proporcional qtd_numeros foco
        (top30 Z.geb freq) (top30 geb_nan atraso) g = Ok c g' /\
      Z.of_nat (length c) = qtd_numeros /\ NoDup c) /\
   (forall e g',
      gerar_aposta fuel df freq atraso qtd_numeros prop_impares foco g <> Err e g') /\
   (forall comb g',
      gerar_aposta fuel df freq atraso qtd_numeros prop_impares foco g = Ok comb g' ->
      Z.of_nat (length comb) = qtd_numeros /\ NoDup comb)) /\
  (qtd_numeros = 0 ->
   gerar_combinacao_proporcional qtd_numeros foco
     (top30 Z.geb freq) (top30 geb_nan atraso) g = Ok [] g /\
   gerar_aposta (S fuel) df freq atraso qtd_numeros prop_impares foco g
   = Err ZeroDivisionError g) /\
  (qtd_numeros < 0 ->
   exists e g',
     gerar_combinacao_proporcional qtd_numeros foco
       (top30 Z.geb freq) (top30 geb_nan atraso) g = Err e g' /\
     gerar_aposta (S fuel) df freq atraso qtd_numeros prop_impares foco g = Err e g' /\
     (e = ValueError \/ e = OverflowError)).
Proof.
  split; [|split; [|split]].
  - intros H1 H2. unfold gerar_aposta. now apply gerar_aposta_loop_outro_foco.
  - intros Hq. split; [|split].
    + destruct (tentativa_faixa df qtd_numeros prop_impares foco
                  (top30 Z.geb freq) (top30 geb_nan atraso) g Hq)
        as (c & g' & Hc & Hlen & Hnd & _).
      eauto.
    + intros e g'. unfold gerar_aposta. now apply gerar_aposta_loop_faixa.
    + intros comb g' H.
      apply gerar_aposta_Ok in H as ((g0 & c & Hc & ->) & _).
      apply gerar_combinacao_proporcional_Ok in Hc as (Hnd & _ & Hlen).
      rewrite sorted_perm. split; [apply Hlen; unfold NUM_MAX; lia | assumption].
  - intros ->.
    pose proof (gerar_combinacao_proporcional_zero foco
                  (top30 Z.geb freq) (top30 geb_nan atraso) g) as H.
    split; [assumption|].
    unfold gerar_aposta. cbn [gerar_aposta_loop]. unfold tentativa, bind.
    rewrite H. reflexivity.
  - intros Hq.
    destruct (gerar_combinacao_proporcional_negativa qtd_numeros foco
                (top30 Z.geb freq) (top30 geb_nan atraso) g Hq) as (e & g' & E & He).
    exists e, g'. split; [assumption|]. split; [|assumption].
    unfold gerar_aposta. cbn [gerar_aposta_loop]. unfold tentativa, bind.
    now rewrite E.
Qed.

Lemma gerar_aposta_sem_validacao_witness :
  (exists c g',
     gerar_combinacao_proporcional 16 "frequentes"
       (top30 Z.geb (calcular_frequencia_numeros historico_exemplo))
       (top30 geb_nan (calcular_atraso_numeros historico_exemplo)) fluxo_exemplo
     = Ok c g' /\
     Z.of_nat (length c) = 16 /\ NoDup c) /\
  (forall e g',
     gerar_aposta 4 historico_exemplo
       (calcular_frequencia_numeros historico_exemplo)
       (calcular_atraso_numeros historico_exemplo)
       16 (proporcao_impares_pares historico_exemplo) "frequentes" fluxo_exemplo
     <> Err e g') /\
  (forall comb g',
     gerar_aposta 4 historico_exemplo
       (calcular_frequencia_numeros historico_exemplo)
       (calcular_atraso_numeros historico_exemplo)
       16 (proporcao_impares_pares historico_exemplo) "frequentes" fluxo_exemplo
     = Ok comb g' ->
     Z.of_nat (length comb) = 16 /\ NoDup comb).
Proof.
  apply (gerar_aposta_sem_validacao 4 historico_exemplo
           (calcular_frequencia_numeros historico_exemplo)
           (calcular_atraso_numeros historico_exemplo)
           16 (proporcao_impares_pares historico_exemplo) "frequentes" fluxo_exemplo).
  lia.
Defined.
